(** * soundreaderfinal.py: reconciliation, chunked decoding and event extraction

    A shallow embedding of the batch pipeline of [soundreaderfinal.py]:
    URL normalisation and identifier extraction, the pre-check dictionaries
    built from the ledger and the working directory, the batch decision
    block, [download_audio] with its sticky flags, [load_audio], [chunker],
    the frame dispatch loop, [subsample], [print_timestamps] and
    [print_results], and the main loop that ties them together.

    Conventions.
    - Python [int] values read from the command line are [Z]; [//] and [%]
      are [Z.div] and [Z.modulo] (both floor, like Python).
    - Confidence scores and samples are exact rationals ([Q]): [max] and
      the comparisons of the source are taken on the exact values, the
      rounding of [float32] products is not represented.
    - A Python [dict] is a [gmap]; [len d] is [size d], [k in d] is
      [is_Some (d !! k)].
    - A raised exception or [sys.exit] is an explicit constructor of the
      result type of the function that raises it.
    - The download library, the codec process, the classifier and the
      clock are parameters of the run.
    - Standard input is the list of the lines still to be typed; every
      prompt shown is recorded with its kind.

    Outside the embedding: the branch of a TikTok account with its retry
    loop, the text of the printed messages and the end-of-run summary. *)

From Stdlib Require Import ZArith QArith Qround Qminmax String Ascii List Lia Lqa
  Sorted DecimalString.
From stdpp Require Import gmap strings list fin_maps.

Open Scope Z_scope.

(** ** Module-level constants *)

(** [sample_rate = 32000] *)
Definition sample_rate : Z := 32000.

(** ** Chunking: [chunker] and the frame dispatch loop *)

Module Chunking.

(** The positions produced by [range(0, stop, step)] for [step > 0]:
    [pos] is emitted while [pos < stop]. *)
Fixpoint range_from (fuel : nat) (pos stop step : Z) : list Z :=
  match fuel with
  | O => []
  | S fuel' =>
      if pos <? stop then pos :: range_from fuel' (pos + step) stop step
      else []
  end.

(** [range(0, stop, step)] with [stop = len(seq) >= 0].  A zero step raises
    [ValueError] ([None]); a negative step gives the empty range because
    the start [0] is not above [stop]. *)
Definition range (stop step : Z) : option (list Z) :=
  if step =? 0 then None
  else if step <? 0 then Some []
  else Some (range_from (Z.to_nat stop) 0 stop step).

(** [seq[pos:pos + size]] for [0 <= pos] and [0 <= size]. *)
Definition slice {A} (seq : list A) (pos size : Z) : list A :=
  take (Z.to_nat size) (drop (Z.to_nat pos) seq).

(** [def chunker(seq, size):
       return (seq[pos:pos + size] for pos in range(0, len(seq), size))] *)
Definition chunker {A} (seq : list A) (size : Z) : option (list (list A)) :=
  match range (Z.of_nat (length seq)) size with
  | None => None
  | Some positions => Some (map (fun pos => slice seq pos size) positions)
  end.

(** [total_chunks = len(audio) // args.batch_size
     remaining_audio = len(audio) % args.batch_size
     if remaining_audio > 0 and remaining_audio >= sample_rate:
         total_chunks += 1] *)
Definition total_chunks (len_audio batch_size : Z) : Z :=
  let total := len_audio / batch_size in
  let remaining_audio := len_audio mod batch_size in
  if (0 <? remaining_audio) && (sample_rate <=? remaining_audio)
  then total + 1 else total.

(** [for idx, chunk in enumerate(chunker(audio, batch_size)):
        if idx >= total_chunks: break
        ... submit chunk ...]
    The list returned is the list of frames handed to the classifier. *)
Fixpoint dispatch {A} (total idx : Z) (chunks : list (list A)) : list (list A) :=
  match chunks with
  | [] => []
  | chunk :: rest =>
      if total <=? idx then []
      else chunk :: dispatch total (idx + 1) rest
  end.

(** The frames submitted for one pass over a decoded signal. *)
Definition submitted_frames {A} (audio : list A) (batch_size : Z)
  : option (list (list A)) :=
  match chunker audio batch_size with
  | None => None
  | Some chunks =>
      Some (dispatch (total_chunks (Z.of_nat (length audio)) batch_size) 0 chunks)
  end.

End Chunking.

(** ** Event extraction: [subsample], [print_timestamps], [print_results] *)

Module Events.

(** [int(x)] on a real value: truncation toward zero. *)
Definition Qtrunc (q : Q) : Z := Z.quot (Qnum q) (Z.pos (Qden q)).

(** [a.max()] on a 1-D array; numpy raises [ValueError] on an empty one. *)
Definition amax (a : list Q) : option Q :=
  match a with
  | [] => None
  | x :: xs => Some (fold_left Qmax xs x)
  end.

(** [a.reshape(-1, cols)] on an array whose length is a multiple of
    [cols > 0]: the consecutive rows of [cols] elements. *)
Fixpoint reshape_rows (fuel : nat) (a : list Q) (cols : nat) : list (list Q) :=
  match fuel with
  | O => []
  | S fuel' =>
      match a with
      | [] => []
      | _ :: _ => take cols a :: reshape_rows fuel' (drop cols a) cols
      end
  end.

(** [def subsample(frame, scale_factor):
       subframe = frame[:len(frame) - (len(frame) % scale_factor)].reshape(-1, scale_factor)
       subframe_mean = subframe.max(axis=1)
       subsample = subframe_mean
       if len(frame) % scale_factor != 0:
           residual_frame = frame[len(frame) - (len(frame) % scale_factor):]
           residual_mean = residual_frame.max()
           subsample = np.append(subsample, residual_mean)
       return subsample]
    [len(frame) % 0] raises [ZeroDivisionError] and [reshape(-1, k)] raises
    [ValueError] for [k < 0]: both are [None]. *)
Definition subsample (frame : list Q) (scale_factor : Z) : option (list Q) :=
  if scale_factor <=? 0 then None
  else
    let len := Z.of_nat (length frame) in
    let r := len mod scale_factor in
    let cut := Z.to_nat (len - r) in
    let subframe := reshape_rows (length frame) (take cut frame) (Z.to_nat scale_factor) in
    match mapM amax subframe with
    | None => None
    | Some subframe_mean =>
        if negb (r =? 0) then
          match amax (drop cut frame) with
          | None => None
          | Some residual_mean => Some (subframe_mean ++ [residual_mean])
          end
        else Some subframe_mean
    end.

(** One printed line of [print_results]: the time in seconds that is
    formatted by [seconds_to_hms] and the integer percentage. *)
Record detection := Detection { timestamp_seconds : Q; confidence_percent : Z }.

(** [def print_results(scores, precision, offset, top, threshold):
       for i in top:
           score = int(scores[i] * 100)
           if score >= threshold:
               tqdm.write(seconds_to_hms(i * precision / 100 + offset) + ' ' + f'{score}%')
           else:
               break]
    The result is the list of lines written, in order; [None] is the
    [IndexError] of [scores[i]]. *)
Fixpoint print_results (scores : list Q) (precision : Z) (offset : Q)
    (top : list nat) (threshold : Z) : option (list detection) :=
  match top with
  | [] => Some []
  | i :: rest =>
      match scores !! i with
      | None => None
      | Some s =>
          let score := Qtrunc (s * 100) in
          if threshold <=? score then
            match print_results scores precision offset rest threshold with
            | None => None
            | Some out =>
                Some (Detection (inject_Z (Z.of_nat i * precision) / 100 + offset) score
                        :: out)
            end
          else Some []
      end
  end.

(** [a[k]] on a sequence of length [len]: a negative index counts from the
    end, an index out of range raises [IndexError]. *)
Definition py_index (len : nat) (k : Z) : option nat :=
  if (0 <=? k) && (k <? Z.of_nat len) then Some (Z.to_nat k)
  else if (k <? 0) && (- Z.of_nat len <=? k) then Some (Z.to_nat (k + Z.of_nat len))
  else None.

(** [framewise_output[:, focus_idx]] on a matrix given by its rows. *)
Definition column (framewise_output : list (list Q)) (focus_idx : Z)
  : option (list Q) :=
  mapM (fun row =>
          match py_index (length row) focus_idx with
          | None => None
          | Some j => row !! j
          end) framewise_output.

(** [np.sort(np.argpartition(scores, -len(scores))[-len(scores):])]:
    [argpartition] returns a permutation of all the indices, the slice
    keeps all of them and [np.sort] puts them in ascending order (all three
    give the empty array on the empty array). *)
Definition sorted_confidence (subsampled_scores : list Q) : list nat :=
  seq 0 (length subsampled_scores).

(** [[i for i in sorted_confidence if subsampled_scores[i] >= actual_threshold]] *)
Definition filtered_indices (subsampled_scores : list Q) (actual_threshold : Q)
  : list nat :=
  List.filter
    (fun i => match subsampled_scores !! i with
              | Some s => Qle_bool actual_threshold s
              | None => false
              end)
    (sorted_confidence subsampled_scores).

(** [def print_timestamps(framewise_output, precision, threshold, focus_idx, offset):
       focus = framewise_output[:, focus_idx]
       subsampled_scores = subsample(focus, precision)
       top_indices = np.argpartition(...)[...]
       sorted_confidence = np.sort(top_indices)
       actual_threshold = threshold / 100
       filtered_indices = [i for i in sorted_confidence
                           if subsampled_scores[i] >= actual_threshold]
       if not filtered_indices:
           return
       print_results(subsampled_scores, precision, offset, filtered_indices, threshold)]
    [Some out] is a normal return having written the lines [out];
    [None] is a raised exception. *)
Definition print_timestamps (framewise_output : list (list Q)) (precision threshold : Z)
    (focus_idx : Z) (offset : Q) : option (list detection) :=
  match column framewise_output focus_idx with
  | None => None
  | Some focus =>
      match subsample focus precision with
      | None => None
      | Some subsampled_scores =>
          let actual_threshold := (inject_Z threshold / 100)%Q in
          let filtered := filtered_indices subsampled_scores actual_threshold in
          match filtered with
          | [] => Some []
          | _ :: _ => print_results subsampled_scores precision offset filtered threshold
          end
      end
  end.


End Events.

(** ** Python string methods used by the resolver *)

Module Str.

Open Scope string_scope.

(** [s.startswith(p)] *)
Fixpoint startswith (p s : string) : bool :=
  match p, s with
  | EmptyString, _ => true
  | String _ _, EmptyString => false
  | String a p', String b s' => Ascii.eqb a b && startswith p' s'
  end.

(** [s.endswith(p)] *)
Definition endswith (p s : string) : bool :=
  startswith (String.rev p) (String.rev s).

(** [p in s] *)
Fixpoint contains (p s : string) : bool :=
  startswith p s ||
  match s with
  | EmptyString => false
  | String _ s' => contains p s'
  end.

(** The left-to-right scan of [s.replace(old, new)] for a non-empty [old]:
    [skip] counts the characters of an occurrence of [old] that are still
    to be passed over. *)
Fixpoint replace_from (old new : string) (skip : nat) (s : string) : string :=
  match s with
  | EmptyString => EmptyString
  | String c s' =>
      match skip with
      | S skip' => replace_from old new skip' s'
      | O =>
          if startswith old s
          then new ++ replace_from old new (String.length old - 1) s'
          else String c (replace_from old new 0 s')
      end
  end.

(** [s.replace(old, new)], [old] not empty. *)
Definition replace (old new s : string) : string := replace_from old new 0 s.

(** The left-to-right scan of [s.split(sep)] for a non-empty [sep]:
    [field] is the field read so far. *)
Fixpoint split_from (sep : string) (skip : nat) (field s : string) : list string :=
  match s with
  | EmptyString => [field]
  | String c s' =>
      match skip with
      | S skip' => split_from sep skip' field s'
      | O =>
          if startswith sep s
          then field :: split_from sep (String.length sep - 1) EmptyString s'
          else split_from sep 0 (field ++ String c EmptyString) s'
      end
  end.

(** [s.split(sep)], [sep] not empty. *)
Definition split (sep s : string) : list string := split_from sep 0 EmptyString s.

(** [s.split(sep)[-1]]; [split] never returns an empty list. *)
Definition split_last (sep s : string) : string := List.last (split sep s) EmptyString.

(** The ASCII characters for which [str.isspace] holds. *)
Definition isspace (c : ascii) : bool :=
  let n := nat_of_ascii c in
  ((9 <=? n) && (n <=? 13) || (28 <=? n) && (n <=? 32))%nat.

Fixpoint lstrip (s : string) : string :=
  match s with
  | EmptyString => EmptyString
  | String c s' => if isspace c then lstrip s' else s
  end.

(** [s.strip()] *)
Definition strip (s : string) : string :=
  String.rev (lstrip (String.rev (lstrip s))).

End Str.

(** ** Reference resolver: URL normalisation and identifiers *)

Module Resolver.

Open Scope string_scope.

(** [url.replace("/shorts/", "/watch?v=")] *)
Definition replace_shorts (url : string) : string :=
  Str.replace "/shorts/" "/watch?v=" url.

(** [url.split("watch?v=")[-1]]: the key of the pre-check dictionaries. *)
Definition video_id_of (url : string) : string :=
  Str.split_last "watch?v=" url.

(** The identifier of the main loop:
    [original_youtube_url = file.replace("/shorts/", "/watch?v=")
     video_id = original_youtube_url.split("watch?v=")[-1]] *)
Definition original_youtube_url (file : string) : string := replace_shorts file.

Definition video_id (file : string) : string :=
  video_id_of (original_youtube_url file).

(** The URL list of a [.txt] batch file:
    [urls = [line.strip().replace("/shorts/", "/watch?v=")
             for line in f.readlines()
             if "youtube.com/watch?" in line or "youtu.be/" in line
                or "youtube.com/shorts/" in line]] *)
Definition is_youtube_line (line : string) : bool :=
  Str.contains "youtube.com/watch?" line || Str.contains "youtu.be/" line
  || Str.contains "youtube.com/shorts/" line.

Definition urls_of_txt (lines : list string) : list string :=
  map (fun line => replace_shorts (Str.strip line))
      (List.filter is_youtube_line lines).

(** The URL list of a playlist or of a channel, from the extracted entries:
    [urls = [url.replace("/shorts/", "/watch?v=")
             if "youtube.com/shorts/" in url else url for url in urls]] *)
Definition urls_of_entries (entries : list string) : list string :=
  map (fun url => if Str.contains "youtube.com/shorts/" url
                  then replace_shorts url else url) entries.

End Resolver.

(** ** Ledger and asset index: the pre-check dictionaries *)

Module Ledger.

Open Scope string_scope.

(** One row of [inference_log.csv] as [log_inference] writes it:
    [[youtube_url, focus_idx, timestamp, video_title]].  The file holds
    such rows only, so the empty rows that [if row] passes over do not
    occur. *)
Record row := Row {
  row_url : string;
  row_code : string;
  row_timestamp : string;
  row_title : string
}.

(** The update of a [{"farts": .., "burps": ..}] entry by a row code. *)
Definition mark (code : string) (entry : bool * bool) : bool * bool :=
  if String.eqb code "60" then (true, entry.2)
  else if String.eqb code "58" then (entry.1, true)
  else entry.

(** Body of the loop of [precheck_log_for_urls]:
    [if row and row[0] in url_list:
         video_id = row[0].split("watch?v=")[-1]
         if video_id not in log_results:
             log_results[video_id] = {"farts": False, "burps": False}
         if row[1] == "60": log_results[video_id]["farts"] = True
         elif row[1] == "58": log_results[video_id]["burps"] = True] *)
Definition log_step (url_list : list string)
    (log_results : gmap string (bool * bool)) (r : row) : gmap string (bool * bool) :=
  if bool_decide (row_url r ∈ url_list) then
    let video_id := Resolver.video_id_of (row_url r) in
    let entry := default (false, false) (log_results !! video_id) in
    <[video_id := mark (row_code r) entry]> log_results
  else log_results.

(** [precheck_log_for_urls(url_list)]; a missing log file is the empty list
    of rows. *)
Definition precheck_log_for_urls (url_list : list string) (rows : list row)
  : gmap string (bool * bool) :=
  fold_left (log_step url_list) rows ∅.

(** [check_log(youtube_url)]: [(processed_farts, processed_burps)]. *)
Definition check_log (youtube_url : string) (rows : list row) : bool * bool :=
  fold_left (fun acc r =>
               if String.eqb (row_url r) youtube_url then mark (row_code r) acc
               else acc)
            rows (false, false).

End Ledger.

Module AssetIndex.

Open Scope string_scope.

(** [possible_extensions = ['.opus', '.m4a', '.mp3', '.mp4']] *)
Definition possible_extensions : list string := [".opus"; ".m4a"; ".mp3"; ".mp4"].

(** The inner loop over [os.listdir(".")]: the first file with
    [video_id in file and file.endswith(ext)]. *)
Definition find_file (video_id ext : string) (listing : list string) : option string :=
  List.find (fun file => Str.contains video_id file && Str.endswith ext file) listing.

(** The loop over the extensions of [precheck_files_for_urls]:
    [for ext in possible_extensions:
         for file in os.listdir("."):
             if video_id in file and file.endswith(ext):
                 file_results[video_id] = file
                 break
         if video_id in file_results:
             break] *)
Fixpoint scan_extensions (video_id : string) (exts listing : list string)
    (file_results : gmap string string) : gmap string string :=
  match exts with
  | [] => file_results
  | ext :: exts' =>
      let file_results' :=
        match find_file video_id ext listing with
        | Some file => <[video_id := file]> file_results
        | None => file_results
        end in
      if bool_decide (is_Some (file_results' !! video_id)) then file_results'
      else scan_extensions video_id exts' listing file_results'
  end.

(** [precheck_files_for_urls(url_list)] *)
Definition precheck_files_for_urls (url_list listing : list string)
  : gmap string string :=
  fold_left (fun file_results url =>
               scan_extensions (Resolver.video_id_of url) possible_extensions
                 listing file_results)
            url_list ∅.

(** The scan of [download_audio] for a single item:
    [existing_file = None
     if video_id:
         for ext in possible_extensions:
             for file in os.listdir("."):
                 if video_id in file and file.endswith(ext):
                     existing_file = file
                     break
             if existing_file:
                 break] *)
Fixpoint first_match (video_id : string) (exts listing : list string) : option string :=
  match exts with
  | [] => None
  | ext :: exts' =>
      match find_file video_id ext listing with
      | Some file => Some file
      | None => first_match video_id exts' listing
      end
  end.

Definition scan_single (video_id : string) (listing : list string) : option string :=
  if String.eqb video_id EmptyString then None
  else first_match video_id possible_extensions listing.

End AssetIndex.

(** ** Console: prompts and answers *)

(** The prompts of the program, by kind. *)
Inductive prompt :=
  | AskRerunAll      (** "Do you want to re-run inference for all videos? (Y/N)" *)
  | AskBatchPolicy   (** "Enter choice (Y/N/A/E)" *)
  | AskUseExisting   (** "Do you want to use the existing file? (Y/N/A ...)" *)
  | AskRunAgain      (** "Do you want to run inference again? ..." *)
  | AskRedownload.   (** "Do you want to re-download it? (Y/N)" *)

Global Instance prompt_eq_dec : EqDecision prompt.
Proof. solve_decision. Defined.

Module Console.

(** Lower-casing of an ASCII letter, as [str.lower] does. *)
Definition lower_ascii (c : ascii) : ascii :=
  let n := nat_of_ascii c in
  if ((65 <=? n) && (n <=? 90))%nat then ascii_of_nat (n + 32) else c.

Fixpoint lower (s : string) : string :=
  match s with
  | EmptyString => EmptyString
  | String c s' => String (lower_ascii c) (lower s')
  end.

(** Standard input as the list of the lines still to be typed, and the
    prompts shown so far, oldest first. *)
Record console := Console {
  answers : list string;
  asked : list prompt
}.

(** [input(p).strip().lower()]; [None] is [EOFError]. *)
Definition input (p : prompt) (c : console) : option (string * console) :=
  match answers c with
  | [] => None
  | a :: rest => Some (lower (Str.strip a), Console rest (asked c ++ [p]))
  end.

End Console.

(** ** Reconciliation: the batch decision block *)

Module Reconcile.

Import Console.

(** The values of [process_logged_missing]: [None], [False], [True] and
    ["all"]. *)
Inductive policy := PNone | PFalse | PTrue | PAll.

Global Instance policy_eq_dec : EqDecision policy.
Proof. solve_decision. Defined.

(** [process_logged_missing == "all"] *)
Definition is_all (p : policy) : bool :=
  match p with PAll => true | _ => false end.

(** [process_logged_missing == True] *)
Definition is_true (p : policy) : bool :=
  match p with PTrue => true | _ => false end.

(** [not process_logged_missing] *)
Definition is_falsy (p : policy) : bool :=
  match p with PNone | PFalse => true | _ => false end.

(** [sum(1 for vid in log_precheck_results if vid not in file_precheck_results)] *)
Definition logged_but_missing_files
    (log : gmap string (bool * bool)) (files : gmap string string) : nat :=
  size (filter (fun kv => files !! kv.1 = None) log).

(** [sum(1 for vid in file_precheck_results if vid not in log_precheck_results)] *)
Definition existing_but_not_logged
    (log : gmap string (bool * bool)) (files : gmap string string) : nat :=
  size (filter (fun kv => log !! kv.1 = None) files).

(** [max(len(urls) - len(log_precheck_results), 0)] *)
Definition videos_to_process (urls : list string)
    (log : gmap string (bool * bool)) : Z :=
  Z.max (Z.of_nat (length urls) - Z.of_nat (size log)) 0.

(** The test of the [if]/[elif] chain in the body of the filter loop. *)
Definition selects (p : policy) (log_entry_exists file_exists : bool)
    (logged_missing : nat) : bool :=
  if is_all p then true
  else if is_true p && log_entry_exists && negb file_exists
          && (0 <? logged_missing)%nat then true
  else if is_falsy p && negb log_entry_exists then true
  else if negb log_entry_exists && file_exists then true
  else false.

(** The test applied to one URL:
    [video_id = url.split("watch?v=")[-1]
     log_entry_exists = video_id in log_precheck_results
     file_exists = video_id in file_precheck_results] *)
Definition selects_url (p : policy) (log : gmap string (bool * bool))
    (files : gmap string string) (url : string) : bool :=
  let video_id := Resolver.video_id_of url in
  selects p (bool_decide (is_Some (log !! video_id)))
            (bool_decide (is_Some (files !! video_id)))
            (logged_but_missing_files log files).

(** [for url in urls: ... urls_to_process.append(url)] when
    [urls_to_process] is the fresh list [[]]. *)
Definition filter_loop (p : policy) (log : gmap string (bool * bool))
    (files : gmap string string) (urls : list string) : list string :=
  fold_left (fun urls_to_process url =>
               if selects_url p log files url then (urls_to_process ++ [url])%list
               else urls_to_process)
            urls [].

(** The same loop after [urls_to_process = urls]: both names denote one
    list object, so an [append] lengthens the list being iterated.  [i] is
    the position of the iterator; [None] is a loop that has not ended
    within [fuel] iterations. *)
Fixpoint filter_loop_aliased (fuel : nat) (p : policy)
    (log : gmap string (bool * bool)) (files : gmap string string)
    (i : nat) (urls : list string) : option (list string) :=
  match fuel with
  | O => None
  | S fuel' =>
      match urls !! i with
      | None => Some urls
      | Some url =>
          if selects_url p log files url
          then filter_loop_aliased fuel' p log files (S i) (urls ++ [url])%list
          else filter_loop_aliased fuel' p log files (S i) urls
      end
  end.

(** How the decision block ends. *)
Inductive decided :=
  | SysExit (code : Z)                       (** [sys.exit(code)], [exit()] *)
  | Continue (p : policy) (aliased : bool)   (** go on to the filter loop *)
  | EOFError.                                (** [input] at end of input *)

(** [len(log_precheck_results) == len(urls) and
     len(file_precheck_results) == len(urls)] *)
Definition fully_satisfied (urls : list string) (log : gmap string (bool * bool))
    (files : gmap string string) : bool :=
  (size log =? length urls)%nat && (size files =? length urls)%nat.

(** [len(log_precheck_results) > 0 and
     (logged_but_missing_files > 0 or existing_but_not_logged > 0
      or videos_to_process != len(urls))] *)
Definition inconsistent (urls : list string) (log : gmap string (bool * bool))
    (files : gmap string string) : bool :=
  (0 <? size log)%nat
  && ((0 <? logged_but_missing_files log files)%nat
      || (0 <? existing_but_not_logged log files)%nat
      || negb (videos_to_process urls log =? Z.of_nat (length urls))).

(** The [if]/[elif] chain that precedes the filter loop. *)
Definition decide_batch (urls : list string) (log : gmap string (bool * bool))
    (files : gmap string string) (c : console) : decided * console :=
  if fully_satisfied urls log files then
    match input AskRerunAll c with
    | None => (EOFError, c)
    | Some (user_input, c') =>
        if String.eqb user_input "y"%string then (Continue PNone true, c')
        else (SysExit 0, c')
    end
  else if inconsistent urls log files then
    match input AskBatchPolicy c with
    | None => (EOFError, c)
    | Some (user_decision, c') =>
        if String.eqb user_decision "n"%string then
          if videos_to_process urls log =? 0 then (SysExit 0, c')
          else (Continue PFalse false, c')
        else if String.eqb user_decision "y"%string then
          if (size log =? 0)%nat || (logged_but_missing_files log files =? 0)%nat
          then (SysExit 0, c')
          else (Continue PTrue false, c')
        else if String.eqb user_decision "a"%string then (Continue PAll false, c')
        else if String.eqb user_decision "e"%string then (SysExit 0, c')
        else (Continue PFalse false, c')
    end
  else (Continue PNone false, c).

(** How the whole block ends: [args.files = urls_to_process] with the
    policy kept in [process_logged_missing], or an exit. *)
Inductive reconciled :=
  | Selected (files : list string) (p : policy)
  | Exited (code : Z)
  | InputEnded
  | Diverges.

(** The decision followed by the filter loop. *)
Definition reconcile_with (fuel : nat) (urls : list string)
    (log : gmap string (bool * bool)) (files : gmap string string)
    (c : console) : reconciled * console :=
  match decide_batch urls log files c with
  | (SysExit code, c') => (Exited code, c')
  | (EOFError, c') => (InputEnded, c')
  | (Continue p false, c') => (Selected (filter_loop p log files urls) p, c')
  | (Continue p true, c') =>
      match filter_loop_aliased fuel p log files 0 urls with
      | Some urls_to_process => (Selected urls_to_process p, c')
      | None => (Diverges, c')
      end
  end.

(** The block on the dictionaries that the two pre-checks build from the
    ledger rows and from the directory listing. *)
Definition reconcile (fuel : nat) (urls : list string) (rows : list Ledger.row)
    (listing : list string) (c : console) : reconciled * console :=
  reconcile_with fuel urls
    (Ledger.precheck_log_for_urls urls rows)
    (AssetIndex.precheck_files_for_urls urls listing) c.

End Reconcile.

(** ** Streaming decoder: [load_audio] *)

(** The exceptions that the modelled code raises and never catches. *)
Inductive exn :=
  | RuntimeError        (** raised by [load_audio] and [download_audio] *)
  | ValueError          (** [np.frombuffer] on a buffer of odd size *)
  | ZeroDivisionError   (** [len(audio) // 0] *)
  | ArrayError          (** an exception raised inside [print_timestamps] *)
  | TypeError           (** [None] where a file name is needed *)
  | NameError           (** a global that was never assigned *)
  | FileNotFoundError   (** [os.remove] of a file that is gone *)
  | DownloadError       (** raised by the download library *)
  | EndOfInput.         (** [EOFError] of [input] *)

Module Decoder.

(** [chunk_size: int = 960000], the default that the only call site uses. *)
Definition chunk_size : Z := 960000.

(** [process.stdout.read(n)] on the bytes still to come: up to [n] bytes,
    and the rest of the stream. *)
Fixpoint read (n : Z) (stream : list Z) : list Z * list Z :=
  match stream with
  | [] => ([], [])
  | b :: stream' =>
      if n <=? 0 then ([], stream)
      else let (chunk, rest) := read (n - 1) stream' in (b :: chunk, rest)
  end.

(** One little-endian signed 16-bit sample. *)
Definition int16_le (lo hi : Z) : Z :=
  let v := lo + 256 * hi in
  if v <? 32768 then v else v - 65536.

(** [np.frombuffer(chunk, np.int16).astype(np.float32) / (2.0**15)];
    a buffer of odd size raises [ValueError]. *)
Fixpoint frombuffer (chunk : list Z) : option (list Q) :=
  match chunk with
  | [] => Some []
  | [_] => None
  | lo :: hi :: rest =>
      match frombuffer rest with
      | None => None
      | Some samples => Some ((inject_Z (int16_le lo hi) / 32768)%Q :: samples)
      end
  end.

(** [while True:
         chunk = process.stdout.read(chunk_size * 2)
         if not chunk: break
         audio_chunk = np.frombuffer(...)...
         buffer.append(audio_chunk)]
    Each turn takes at least one byte, so [fuel] above the length of the
    stream is never used up. *)
Fixpoint read_loop (fuel : nat) (stream : list Z) (buffer : list (list Q))
  : exn + list (list Q) :=
  match fuel with
  | O => inr buffer
  | S fuel' =>
      let (chunk, rest) := read (chunk_size * 2) stream in
      match chunk with
      | [] => inr buffer
      | _ :: _ =>
          match frombuffer chunk with
          | None => inl ValueError
          | Some audio_chunk => read_loop fuel' rest (buffer ++ [audio_chunk])
          end
      end
  end.

(** [def load_audio(file, sr, chunk_size=960000)] on the bytes that the
    codec process writes for [file]:
    [if not buffer:
         raise RuntimeError(f"No audio could be extracted from the file: {file}")
     ...
     return np.concatenate(buffer)]
    The [except] clause catches [subprocess.SubprocessError] only, so both
    exceptions leave the function. *)
Definition load_audio (stream : list Z) : exn + list Q :=
  match read_loop (S (length stream)) stream [] with
  | inl e => inl e
  | inr [] => inl RuntimeError
  | inr (c :: buffer) => inr (concat (c :: buffer))
  end.

End Decoder.

(** ** The run: [download_audio] and the main loop *)

Module Pipeline.

Import Console.

(** The module-level variables that the functions share, the working
    directory, the ledger file and the console.  [started] and
    [inferenced] record, in order, the items for which an iteration of the
    main loop began and those whose inference went to its end. *)
Record state := State {
  skip_all : bool;
  use_existing_all : bool;
  total_videos : nat;
  skipped_videos : nat;
  new_videos : nat;
  existing_files_used : nat;
  videos_inferenced : nat;
  listing : list string;
  ledger : list Ledger.row;
  console : Console.console;
  printed : list Events.detection;
  started : list string;
  inferenced : list string
}.

Definition set_skip_all (b : bool) (s : state) : state :=
  State b (use_existing_all s) (total_videos s) (skipped_videos s) (new_videos s)
    (existing_files_used s) (videos_inferenced s) (listing s) (ledger s)
    (console s) (printed s) (started s) (inferenced s).

Definition set_use_existing_all (b : bool) (s : state) : state :=
  State (skip_all s) b (total_videos s) (skipped_videos s) (new_videos s)
    (existing_files_used s) (videos_inferenced s) (listing s) (ledger s)
    (console s) (printed s) (started s) (inferenced s).

Definition begin_item (file : string) (s : state) : state :=
  State (skip_all s) (use_existing_all s) (S (total_videos s)) (skipped_videos s)
    (new_videos s) (existing_files_used s) (videos_inferenced s) (listing s)
    (ledger s) (console s) (printed s) (started s ++ [file]) (inferenced s).

Definition count_skipped (s : state) : state :=
  State (skip_all s) (use_existing_all s) (total_videos s) (S (skipped_videos s))
    (new_videos s) (existing_files_used s) (videos_inferenced s) (listing s)
    (ledger s) (console s) (printed s) (started s) (inferenced s).

Definition count_new (s : state) : state :=
  State (skip_all s) (use_existing_all s) (total_videos s) (skipped_videos s)
    (S (new_videos s)) (existing_files_used s) (videos_inferenced s) (listing s)
    (ledger s) (console s) (printed s) (started s) (inferenced s).

Definition count_existing (s : state) : state :=
  State (skip_all s) (use_existing_all s) (total_videos s) (skipped_videos s)
    (new_videos s) (S (existing_files_used s)) (videos_inferenced s) (listing s)
    (ledger s) (console s) (printed s) (started s) (inferenced s).

Definition end_item (file : string) (s : state) : state :=
  State (skip_all s) (use_existing_all s) (total_videos s) (skipped_videos s)
    (new_videos s) (existing_files_used s) (S (videos_inferenced s)) (listing s)
    (ledger s) (console s) (printed s) (started s) (inferenced s ++ [file]).

Definition set_listing (l : list string) (s : state) : state :=
  State (skip_all s) (use_existing_all s) (total_videos s) (skipped_videos s)
    (new_videos s) (existing_files_used s) (videos_inferenced s) l (ledger s)
    (console s) (printed s) (started s) (inferenced s).

Definition set_ledger (l : list Ledger.row) (s : state) : state :=
  State (skip_all s) (use_existing_all s) (total_videos s) (skipped_videos s)
    (new_videos s) (existing_files_used s) (videos_inferenced s) (listing s) l
    (console s) (printed s) (started s) (inferenced s).

Definition set_console (c : Console.console) (s : state) : state :=
  State (skip_all s) (use_existing_all s) (total_videos s) (skipped_videos s)
    (new_videos s) (existing_files_used s) (videos_inferenced s) (listing s)
    (ledger s) c (printed s) (started s) (inferenced s).

Definition set_printed (p : list Events.detection) (s : state) : state :=
  State (skip_all s) (use_existing_all s) (total_videos s) (skipped_videos s)
    (new_videos s) (existing_files_used s) (videos_inferenced s) (listing s)
    (ledger s) (console s) p (started s) (inferenced s).

(** The state when the program starts: [use_existing_all = False] at module
    level, the counters at zero, and [skip_all = False] before the main
    loop. *)
Definition initial_state (files_on_disk : list string) (rows : list Ledger.row)
    (typed : list string) : state :=
  State false false 0 0 0 0 0 files_on_disk rows (Console typed []) [] [] [].

(** What the batch branches leave in the globals: the two pre-check
    dictionaries, [urls] and [process_logged_missing]. *)
Record batch_info := BatchInfo {
  log_precheck_results : gmap string (bool * bool);
  file_precheck_results : gmap string string;
  urls : list string;
  process_logged_missing : Reconcile.policy
}.

(** The numeric command-line options. *)
Record arguments := Arguments {
  precision : Z;                (** [args.precision], default 100 *)
  threshold : Z;                (** [args.threshold], default 20 *)
  batch_size : Z;               (** [args.batch_size], default 960000 *)
  focus_idx : option Z          (** [args.focus_idx] *)
}.

(** What the main loop reads and never writes. *)
Record env := Env {
  processing_batch : bool;
  batch : option batch_info;
  files : list string;          (** [args.files] *)
  args : arguments
}.

(** What a download function hands back. *)
Inductive acquired :=
  | Asset (file title : string)   (** [return file, video_title] *)
  | NoAsset                       (** [return None, None] *)
  | Exit (code : Z)               (** [sys.exit(code)] *)
  | Raise (e : exn).

(** How the run ends. *)
Inductive ending :=
  | Finished              (** the end of the script *)
  | SysExits (code : Z)   (** [sys.exit(code)] *)
  | Uncaught (e : exn)    (** an exception that nothing catches *)
  | NeverEnds.            (** a loop that was still running out of fuel *)

(** The exit code of the process, when it ends. *)
Definition exit_code (e : ending) : option Z :=
  match e with
  | Finished => Some 0
  | SysExits code => Some code
  | Uncaught _ => Some 1
  | NeverEnds => None
  end.

Section WithCollaborators.

(** The fetcher: [extract_info(url, download=False)] gives the title and
    the id, or raises ([None]); [extract_info(url, download=True)] followed
    by the search of the written file gives its name, or raises. *)
Variable metadata : string -> option (string * string).
Variable fetch : string -> list string -> option string.

(** The other download functions, as functions of the URL and of the
    directory: what they return ([None] is [(None, None)]) and the
    directory they leave. *)
Variable download_tiktok
  : string -> list string -> option (string * string) * list string.
Variable download_twitch
  : string -> list string -> option (string * string) * list string.
Variable download_soop
  : string -> list string -> option (string * string) * list string.

(** The batch sources: the lines of a [.txt] file, the URLs of the entries
    of a playlist and of a channel. *)
Variable read_lines : string -> list string.
Variable playlist_entries : string -> list string.
Variable channel_entries : string -> list string.

(** The codec process: the bytes written for a file. *)
Variable ffmpeg : string -> list Z.

(** The classifier: [ort_session.run(['output'], {'input': chunk})[0][0]],
    one row per model frame and one column per class. *)
Variable classifier : list Q -> list (list Q).

(** The clock of [log_inference], by the number of rows already written. *)
Variable now : nat -> string.

(** Step 1 of [download_audio]:
    [if processing_batch:
         processed_farts, processed_burps =
             log_precheck_results.get(video_id, {"farts": False, "burps": False}).values()
     else:
         processed_farts, processed_burps = check_log(youtube_url)] *)
Definition processed_flags (e : env) (youtube_url video_id : string) (s : state)
  : option (bool * bool) :=
  if processing_batch e then
    match batch e with
    | None => None
    | Some b => Some (default (false, false) (log_precheck_results b !! video_id))
    end
  else Some (Ledger.check_log youtube_url (ledger s)).

(** Step 2: [file_precheck_results.get(video_id)] for a batch, the scan of
    the directory otherwise. *)
Definition existing_file_of (e : env) (video_id : string) (s : state)
  : option (option string) :=
  if processing_batch e then
    match batch e with
    | None => None
    | Some b => Some (file_precheck_results b !! video_id)
    end
  else Some (AssetIndex.scan_single video_id (listing s)).

(** [processing_batch and args.files == urls] *)
Definition rerun_selected (e : env) : option bool :=
  if processing_batch e then
    match batch e with
    | None => None
    | Some b => Some (bool_decide (files e = urls b))
    end
  else Some false.

(** [(process_logged_missing == "all") if 'process_logged_missing' in locals()
     else False] *)
Definition auto_redownload (e : env) : bool :=
  match batch e with
  | None => false
  | Some b => Reconcile.is_all (process_logged_missing b)
  end.

(** "Proceed to download if we get here." *)
Definition do_download (youtube_url video_title : string) (s : state)
  : acquired * state :=
  match fetch youtube_url (listing s) with
  | None => (Raise DownloadError, s)
  | Some expected_file =>
      (Asset expected_file video_title,
       count_new (set_listing (expected_file :: listing s) s))
  end.

(** "If no file exists but the log indicates previous processing, ask if
    re-download is desired." *)
Definition missing_step (e : env) (youtube_url video_title : string)
    (processed : bool) (s : state) : acquired * state :=
  if processed then
    if auto_redownload e then do_download youtube_url video_title s
    else
      match input AskRedownload (console s) with
      | None => (Raise EndOfInput, s)
      | Some (user_input, c) =>
          let s' := set_console c s in
          if String.eqb user_input "y"%string
          then do_download youtube_url video_title s'
          else if processing_batch e then (NoAsset, s') else (Exit 1, s')
      end
  else do_download youtube_url video_title s.

(** Step 3: "If file exists AND inference is logged". *)
Definition logged_step (e : env) (existing_file video_title : string)
    (processed : bool) (s : state) : acquired * state :=
  if processed then
    if skip_all s then (NoAsset, s)
    else
      match rerun_selected e with
      | None => (Raise NameError, s)
      | Some true => (Asset existing_file video_title, s)
      | Some false =>
          match input AskRunAgain (console s) with
          | None => (Raise EndOfInput, s)
          | Some (user_input, c) =>
              let s' := set_console c s in
              if String.eqb user_input "a"%string
              then (NoAsset, set_skip_all true s')
              else if String.eqb user_input "n"%string then (NoAsset, s')
              else (Asset existing_file video_title, s')
          end
      end
  else (Asset existing_file video_title, s).

(** Steps 3 and later, by the value of [existing_file]. *)
Definition after_conflict (e : env) (youtube_url video_title : string)
    (existing_file : option string) (processed : bool) (s : state)
  : acquired * state :=
  match existing_file with
  | Some file => logged_step e file video_title processed s
  | None => missing_step e youtube_url video_title processed s
  end.

(** Step 2.1: "Handle potential duplicate file (exists but not logged)". *)
Definition unlogged_step (e : env) (youtube_url video_title : string)
    (existing_file : option string) (processed : bool) (s : state)
  : acquired * state :=
  match existing_file with
  | Some file =>
      if negb processed then
        if use_existing_all s then (Asset file video_title, count_existing s)
        else
          match input AskUseExisting (console s) with
          | None => (Raise EndOfInput, s)
          | Some (user_input, c) =>
              let s' := set_console c s in
              if String.eqb user_input "a"%string then
                (Asset file video_title,
                 count_existing (set_use_existing_all true s'))
              else if String.eqb user_input "y"%string then
                (Asset file video_title, count_existing s')
              else if String.eqb user_input "n"%string then
                if bool_decide (file ∈ listing s') then
                  after_conflict e youtube_url video_title None processed
                    (set_listing (List.filter (fun f => negb (String.eqb f file))
                                    (listing s')) s')
                else (Raise FileNotFoundError, s')
              else after_conflict e youtube_url video_title (Some file) processed s'
          end
      else after_conflict e youtube_url video_title (Some file) processed s
  | None => after_conflict e youtube_url video_title None processed s
  end.

(** [def download_audio(youtube_url, cookies=None, auto_redownload=False)] *)
Definition download_audio (e : env) (youtube_url : string) (s : state)
  : acquired * state :=
  match metadata youtube_url with
  | None => (NoAsset, s)
  | Some (video_title, video_id) =>
      match processed_flags e youtube_url video_id s,
            existing_file_of e video_id s with
      | Some (processed_farts, processed_burps), Some existing_file =>
          unlogged_step e youtube_url video_title existing_file
            (processed_farts || processed_burps) s
      | _, _ => (Raise NameError, s)
      end
  end.

(** [def log_inference(youtube_url, focus_idx, video_title)] *)
Definition log_inference (youtube_url : string) (focus : Z) (video_title : string)
    (s : state) : state :=
  if negb (Str.startswith "http" youtube_url) || Str.contains "tiktok.com" youtube_url
  then s
  else set_ledger
         (ledger s ++ [Ledger.Row youtube_url
                         (NilEmpty.string_of_int (Z.to_int focus))
                         (now (length (ledger s))) video_title]) s.

(** The loop over the submitted frames of one pass:
    [framewise_output = ort_session.run(['output'], ort_inputs)[0]
     print_timestamps(framewise_output[0], args.precision, args.threshold,
                      focus_idx, offset)
     offset += len(chunk[0]) / sample_rate] *)
Fixpoint run_frames (e : env) (focus : Z) (offset : Q) (frames : list (list Q))
    (s : state) : option exn * state :=
  match frames with
  | [] => (None, s)
  | chunk :: rest =>
      match Events.print_timestamps (classifier chunk) (precision (args e))
              (threshold (args e))
              focus offset with
      | None => (Some ArrayError, s)
      | Some lines =>
          run_frames e focus
            (offset + inject_Z (Z.of_nat (length chunk)) / inject_Z sample_rate)%Q
            rest (set_printed (printed s ++ lines) s)
      end
  end.

(** [for focus_idx in focus_idx_values:
         offset = 0
         ... the pass over the frames ...
         log_inference(original_youtube_url, focus_idx, video_title)] *)
Fixpoint run_classes (e : env) (original_youtube_url video_title : string)
    (frames : list (list Q)) (focus_idx_values : list Z) (s : state)
  : option exn * state :=
  match focus_idx_values with
  | [] => (None, s)
  | focus :: rest =>
      match run_frames e focus 0%Q frames s with
      | (Some x, s') => (Some x, s')
      | (None, s') =>
          run_classes e original_youtube_url video_title frames rest
            (log_inference original_youtube_url focus video_title s')
      end
  end.

(** [focus_idx_values = [60, 58]] unless [args.focus_idx] is given. *)
Definition focus_idx_values (e : env) : list Z :=
  match focus_idx (args e) with
  | None => [60; 58]
  | Some i => [i]
  end.

(** The rest of an iteration once [file] and [video_title] are known:
    [audio = load_audio(file, sr=sample_rate)] and the passes.  [None] as
    result is the normal end of the iteration. *)
Definition infer_item (e : env) (item original_youtube_url : string)
    (file : option string) (video_title : string) (s : state)
  : option ending * state :=
  match file with
  | None => (Some (Uncaught TypeError), s)
  | Some file =>
      match Decoder.load_audio (ffmpeg file) with
      | inl x => (Some (Uncaught x), s)
      | inr audio =>
          match Chunking.submitted_frames audio (batch_size (args e)) with
          | None => (Some (Uncaught ZeroDivisionError), s)
          | Some frames =>
              match run_classes e original_youtube_url video_title frames
                      (focus_idx_values e) s with
              | (Some x, s') => (Some (Uncaught x), s')
              | (None, s') => (None, end_item item s')
              end
          end
      end
  end.

(** One iteration of [for i, file in enumerate(args.files)]. *)
Definition iteration (e : env) (file : string) (s0 : state)
  : option ending * state :=
  let s := begin_item file s0 in
  let original_youtube_url := Resolver.original_youtube_url file in
  if Str.contains "youtube.com" file || Str.contains "youtu.be" file then
    match download_audio e file s with
    | (Asset f video_title, s') =>
        infer_item e file original_youtube_url (Some f) video_title s'
    | (NoAsset, s') => (None, count_skipped s')
    | (Exit code, s') => (Some (SysExits code), s')
    | (Raise x, s') => (Some (Uncaught x), s')
    end
  else if Str.contains "tiktok.com" file && Str.contains "/video/" file then
    match download_tiktok file (listing s) with
    | (Some (f, video_title), dir) =>
        infer_item e file original_youtube_url (Some f) video_title (set_listing dir s)
    | (None, dir) =>
        infer_item e file original_youtube_url None EmptyString (set_listing dir s)
    end
  else if Str.contains "twitch.tv/videos/" file || Str.contains "clips.twitch.tv/" file then
    match download_twitch file (listing s) with
    | (Some (f, video_title), dir) =>
        infer_item e file original_youtube_url (Some f) video_title (set_listing dir s)
    | (None, dir) =>
        infer_item e file original_youtube_url None EmptyString (set_listing dir s)
    end
  else if Str.contains "soop.live" file || Str.contains "vod.sooplive.co.kr" file then
    match download_soop file (listing s) with
    | (Some (f, video_title), dir) =>
        infer_item e file original_youtube_url (Some f) video_title (set_listing dir s)
    | (None, dir) => (None, count_skipped (set_listing dir s))
    end
  else infer_item e file original_youtube_url (Some file) file s.

(** The main loop: it goes on to the next item only after an iteration that
    ended normally. *)
Fixpoint main_loop (e : env) (items : list string) (s : state) : ending * state :=
  match items with
  | [] => (Finished, s)
  | file :: rest =>
      match iteration e file s with
      | (Some how, s') => (how, s')
      | (None, s') => main_loop e rest s'
      end
  end.

(** A batch of YouTube URLs (from a [.txt] file, a playlist or a channel):
    the exit on an empty list, the two pre-checks, the decision block, then
    [skip_all = False] and the main loop on the selected URLs. *)
Definition run_batch (fuel : nat) (processing : bool) (a : arguments)
    (urls : list string) (s : state) : ending * state :=
  match urls with
  | [] => (SysExits 1, s)
  | _ :: _ =>
      let log := Ledger.precheck_log_for_urls urls (ledger s) in
      let on_disk := AssetIndex.precheck_files_for_urls urls (listing s) in
      match Reconcile.reconcile_with fuel urls log on_disk (console s) with
      | (Reconcile.Exited code, c) => (SysExits code, set_console c s)
      | (Reconcile.InputEnded, c) => (Uncaught EndOfInput, set_console c s)
      | (Reconcile.Diverges, c) => (NeverEnds, set_console c s)
      | (Reconcile.Selected urls_to_process p, c) =>
          let e := Env processing (Some (BatchInfo log on_disk urls p))
                     urls_to_process a in
          main_loop e urls_to_process (set_skip_all false (set_console c s))
      end
  end.

(** [processing_batch], from the first command-line argument. *)
Definition processing_batch_of (first_file : string) : bool :=
  Str.endswith ".txt" first_file
  || Str.contains "youtube.com/playlist" first_file
  || Str.contains "youtube.com/@" first_file
  || Str.contains "youtube.com/c/" first_file
  || Str.contains "youtube.com/user/" first_file
  || Str.contains "youtube.com/channel/" first_file
  || (Str.contains "tiktok.com/@" first_file
      && negb (Str.contains "/video/" first_file)).

(** The items given on the command line, processed as they are. *)
Definition run_direct (a : arguments) (argv : list string) (s : state)
  : ending * state :=
  let first_file := List.hd EmptyString argv in
  let e := Env (processing_batch_of first_file) None argv a in
  main_loop e argv (set_skip_all false s).

(** The script on its command line, by the kind of the first argument.  The
    branch of a TikTok account is outside this model ([None]). *)
Definition run (fuel : nat) (a : arguments) (argv : list string) (s : state)
  : option (ending * state) :=
  let first_file := List.hd EmptyString argv in
  let as_batch := run_batch fuel (processing_batch_of first_file) a in
  if Str.contains "tiktok.com" first_file && Str.contains "/video/" first_file then
    Some (run_direct a argv s)
  else if Str.contains "tiktok.com/@" first_file then None
  else if Str.endswith ".txt" first_file then
    Some (as_batch (Resolver.urls_of_txt (read_lines first_file)) s)
  else if Str.contains "youtube.com/playlist?" first_file
          || Str.contains "&list=" first_file then
    Some (as_batch (Resolver.urls_of_entries (playlist_entries first_file)) s)
  else if Str.contains "youtube.com/@" first_file
          || Str.contains "youtube.com/c/" first_file
          || Str.contains "youtube.com/user/" first_file
          || Str.contains "youtube.com/channel/" first_file then
    Some (as_batch
            (Resolver.urls_of_entries
               (map Resolver.replace_shorts (channel_entries first_file))) s)
  else Some (run_direct a argv s).

End WithCollaborators.

End Pipeline.

(** ** Specification predicates used by the statements *)

(** [m] is the maximum of the window [w]: it occurs in [w] and bounds it. *)
Definition is_max (m : Q) (w : list Q) : Prop :=
  In m w /\ Forall (fun x => (x <= m)%Q) w.


(** ** Concrete data for the examples *)

Module Sample.

Open Scope string_scope.

Definition url_a : string := "https://www.youtube.com/watch?v=aaa".
Definition url_b : string := "https://www.youtube.com/watch?v=bbb".
Definition short_link : string := "https://youtu.be/dQw4w9WgXcQ".
Definition long_link : string := "https://www.youtube.com/watch?v=dQw4w9WgXcQ".
Definition shorts_link : string := "https://www.youtube.com/shorts/dQw4w9WgXcQ".
Definition file_a : string := "Title A [aaa].m4a".
Definition file_b : string := "Title B [bbb].m4a".

(** A ledger row as [log_inference] writes it for [url] and class 60. *)
Definition row_60 (url title : string) : Ledger.row :=
  Ledger.Row url "60" "01/01/2025_00:00:00" title.

Definition file_song : string := "Song [dQw4w9WgXcQ].mp3".

(** A fetcher that knows three sample URLs and whose downloads fail. *)
Definition metadata (url : string) : option (string * string) :=
  if String.eqb url url_a then Some ("Title A", "aaa")
  else if String.eqb url url_b then Some ("Title B", "bbb")
  else if String.eqb url long_link then Some ("Song", "dQw4w9WgXcQ")
  else None.

Definition fetch (url : string) (dir : list string) : option string := None.

Definition download_other (url : string) (dir : list string)
  : option (string * string) * list string := (None, dir).

(** The only batch file is [list.txt]. *)
Definition batch_lines (lines : list string) (path : string) : list string :=
  if String.eqb path "list.txt" then lines else [].

Definition no_entries (url : string) : list string := [].

(** A codec that writes nothing for [file_a] and two samples for any other
    file. *)
Definition ffmpeg (file : string) : list Z :=
  if String.eqb file file_a then [] else [0; 64; 0; 32]%Z.

(** A classifier with one class that scores every frame at one half. *)
Definition classifier (chunk : list Q) : list (list Q) := [[1 # 2]%Q].

Definition now (n : nat) : string := "02/01/2025_00:00:00".

(** The default command-line options, with class 60 alone. *)
Definition options : Pipeline.arguments :=
  Pipeline.Arguments 100 20 960000 (Some 60%Z).

(** The script with the sample collaborators, on [list.txt]. *)
Definition run_list (lines : list string) (s : Pipeline.state)
  : option (Pipeline.ending * Pipeline.state) :=
  Pipeline.run metadata fetch download_other download_other download_other
    (batch_lines lines) no_entries no_entries ffmpeg classifier now
    10 options ["list.txt"] s.

(** The environment of the main loop for a batch in which every URL was
    selected and no policy was asked for. *)
Definition batch_env (urls dir : list string) (rows : list Ledger.row)
  : Pipeline.env :=
  Pipeline.Env true
    (Some (Pipeline.BatchInfo (Ledger.precheck_log_for_urls urls rows)
             (AssetIndex.precheck_files_for_urls urls dir) urls Reconcile.PNone))
    urls options.

End Sample.

(** ** Printed lines: [seconds_to_hms] *)

Module Render.

Open Scope string_scope.

(** [divmod(x, y)] on real values: the floor of the quotient, and what is
    left. *)
Definition divmod (x y : Q) : Q * Q :=
  let q := inject_Z (Qfloor (x / y)) in (q, (x - q * y)%Q).

(** The three integers that [seconds_to_hms] formats:
    [hours, remainder = divmod(seconds, 60 * 60)
     minutes, seconds = divmod(remainder, 60)]
    and then [int(hours)], [int(minutes)], [int(seconds)]. *)
Definition hms_fields (seconds : Q) : Z * Z * Z :=
  let (hours, remainder) := divmod seconds (60 * 60) in
  let (minutes, seconds') := divmod remainder 60 in
  (Events.Qtrunc hours, Events.Qtrunc minutes, Events.Qtrunc seconds').

(** [f"{v:02d}"]: the decimal digits, with a zero in front of a single
    digit. *)
Definition pad2 (v : Z) : string :=
  let digits := NilEmpty.string_of_int (Z.to_int v) in
  if (String.length digits <? 2)%nat then String "0" digits else digits.

(** [def seconds_to_hms(seconds):
       hours, remainder = divmod(seconds, 60 * 60)
       minutes, seconds = divmod(remainder, 60)
       return f"{int(hours):02d}:{int(minutes):02d}:{int(seconds):02d}"] *)
Definition seconds_to_hms (seconds : Q) : string :=
  let '(hours, minutes, seconds') := hms_fields seconds in
  pad2 hours ++ ":" ++ pad2 minutes ++ ":" ++ pad2 seconds'.

(** The line that [print_results] writes for a detection:
    [seconds_to_hms(i * precision / 100 + offset) + ' ' + f'{score}%'] *)
Definition line (d : Events.detection) : string :=
  seconds_to_hms (Events.timestamp_seconds d) ++ " "
  ++ NilEmpty.string_of_int (Z.to_int (Events.confidence_percent d)) ++ "%".

End Render.

(** * Theorems *)

(** ** Chunking *)

Section ChunkerFacts.
Import Chunking.
Context {A : Type}.
Implicit Types (s : list A) (k pos : Z).

Lemma range_from_chunks s k (fuel : nat) (p : nat) :
  0 < k ->
  (length s - p <= fuel)%nat ->
  concat (map (fun pos => slice s pos k)
              (range_from fuel (Z.of_nat p) (Z.of_nat (length s)) k))
  = drop p s.
Proof.
  intros Hk. revert p. induction fuel as [|fuel IH]; intros p Hf; simpl.
  - rewrite drop_ge by lia. reflexivity.
  - destruct (Z.ltb_spec (Z.of_nat p) (Z.of_nat (length s))) as [Hlt|Hge].
    + simpl. replace (Z.of_nat p + k) with (Z.of_nat (p + Z.to_nat k)) by lia.
      rewrite IH by lia. unfold slice. rewrite Nat2Z.id.
      rewrite <- drop_drop. apply take_drop.
    + simpl. rewrite drop_ge by lia. reflexivity.
Qed.

Lemma range_from_shape s k (fuel : nat) (p : nat) :
  0 < k ->
  (length s - p <= fuel)%nat ->
  forall i c,
    map (fun pos => slice s pos k)
        (range_from fuel (Z.of_nat p) (Z.of_nat (length s)) k) !! i = Some c ->
    c <> [] /\ (Z.of_nat (length c) <= k) /\
    ((S i < length (range_from fuel (Z.of_nat p) (Z.of_nat (length s)) k))%nat
       -> Z.of_nat (length c) = k).
Proof.
  intros Hk. revert p. induction fuel as [|fuel IH]; intros p Hf i c; simpl.
  - intros H. discriminate.
  - destruct (Z.ltb_spec (Z.of_nat p) (Z.of_nat (length s))) as [Hlt|Hge];
      [|intros H; discriminate].
    replace (Z.of_nat p + k) with (Z.of_nat (p + Z.to_nat k)) by lia.
    destruct i as [|i]; simpl.
    + intros [= <-]. unfold slice. rewrite Nat2Z.id.
      rewrite length_take, length_drop. split; [|split].
      * intros E. apply (f_equal length) in E.
        rewrite length_take, length_drop in E. simpl in E. lia.
      * lia.
      * destruct fuel as [|fuel]; simpl; [lia|].
        destruct (Z.ltb_spec (Z.of_nat (p + Z.to_nat k)) (Z.of_nat (length s)));
          simpl; lia.
    + intros H. destruct (IH (p + Z.to_nat k)%nat ltac:(lia) i c H) as (H1 & H2 & H3).
      split; [exact H1|split; [exact H2|]]. intros Hlen. apply H3. lia.
Qed.

(** The number of positions of [range(0, n, k)] from [p] on is the ceiling
    of [(n - p) / k]. *)
Lemma range_from_length (n : nat) k (fuel p : nat) :
  0 < k ->
  (n - p <= fuel)%nat ->
  Z.of_nat (length (range_from fuel (Z.of_nat p) (Z.of_nat n) k))
  = Z.max 0 ((Z.of_nat n - Z.of_nat p + k - 1) / k).
Proof.
  intros Hk. revert p. induction fuel as [|fuel IH]; intros p Hf; simpl.
  - assert ((Z.of_nat n - Z.of_nat p + k - 1) / k <= 0); [|lia].
    assert ((Z.of_nat n - Z.of_nat p + k - 1) / k < 1); [|lia].
    apply Z.div_lt_upper_bound; lia.
  - destruct (Z.ltb_spec (Z.of_nat p) (Z.of_nat n)) as [Hlt|Hge].
    + cbn [length]. rewrite Nat2Z.inj_succ.
      replace (Z.of_nat p + k) with (Z.of_nat (p + Z.to_nat k)) by lia.
      rewrite IH by lia.
      replace (Z.of_nat n - Z.of_nat p + k - 1)
        with ((Z.of_nat n - Z.of_nat (p + Z.to_nat k) + k - 1) + 1 * k) by lia.
      rewrite Z.div_add by lia.
      assert (0 <= (Z.of_nat n - Z.of_nat (p + Z.to_nat k) + k - 1) / k); [|lia].
      apply Z.div_pos; lia.
    + simpl.
      assert ((Z.of_nat n - Z.of_nat p + k - 1) / k < 1); [|lia].
      apply Z.div_lt_upper_bound; lia.
Qed.

Lemma dispatch_length (total idx : Z) (chunks : list (list A)) :
  length (dispatch total idx chunks)
  = Nat.min (Z.to_nat (total - idx)) (length chunks).
Proof.
  revert idx. induction chunks as [|c cs IH]; intros idx; simpl.
  - lia.
  - destruct (Z.leb_spec total idx); simpl.
    + lia.
    + rewrite IH. lia.
Qed.

Lemma dispatch_take (total idx : Z) (chunks : list (list A)) :
  dispatch total idx chunks = take (Z.to_nat (total - idx)) chunks.
Proof.
  revert idx. induction chunks as [|c cs IH]; intros idx; simpl.
  - rewrite take_nil. reflexivity.
  - destruct (Z.leb_spec total idx); simpl.
    + replace (Z.to_nat (total - idx)) with O by lia. reflexivity.
    + rewrite IH. replace (Z.to_nat (total - idx)) with (S (Z.to_nat (total - (idx + 1)))) by lia.
      reflexivity.
Qed.

(** C10. For every signal [s] and every chunk size [k > 0], [chunker]
    returns a finite list of chunks whose concatenation in order is exactly
    [s]; every chunk is non-empty and has at most [k] samples, and every
    chunk except possibly the last has exactly [k] samples. *)
Theorem chunker_partition s k :
  0 < k ->
  exists chunks,
    chunker s k = Some chunks /\
    concat chunks = s /\
    (forall i c, chunks !! i = Some c ->
       c <> [] /\ Z.of_nat (length c) <= k /\
       ((S i < length chunks)%nat -> Z.of_nat (length c) = k)).
Proof.
  intros Hk. unfold chunker, range.
  destruct (Z.eqb_spec k 0) as [->|_]; [lia|].
  destruct (Z.ltb_spec k 0) as [?|_]; [lia|].
  eexists; split; [reflexivity|]. rewrite Nat2Z.id. split.
  - apply (range_from_chunks s k (length s) 0 Hk). lia.
  - intros i c Hc. rewrite length_map.
    apply (range_from_shape s k (length s) 0 Hk ltac:(lia) i c Hc).
Qed.

(** C6. For a decoded signal of [n] samples and [batch_size = b > 0], the
    dispatch loop submits [n // b] frames, plus one more exactly when the
    final partial frame is non-empty and holds at least [sample_rate]
    samples; a shorter final partial frame is not submitted. *)
Theorem submitted_frames_count (audio : list A) (b : Z) :
  0 < b ->
  let n := Z.of_nat (length audio) in
  exists frames,
    submitted_frames audio b = Some frames /\
    Z.of_nat (length frames)
    = n / b + (if (0 <? n mod b) && (sample_rate <=? n mod b) then 1 else 0).
Proof.
  intros Hb n. unfold submitted_frames, chunker, range.
  destruct (Z.eqb_spec b 0) as [->|_]; [lia|].
  destruct (Z.ltb_spec b 0) as [?|_]; [lia|].
  eexists; split; [reflexivity|].
  rewrite dispatch_length, length_map, Nat2Z.id.
  fold n.
  pose proof (range_from_length (length audio) b (length audio) 0 Hb ltac:(lia)) as HL.
  fold n in HL. change (Z.of_nat 0) with 0 in HL.
  assert (Hn : 0 <= n) by (subst n; lia).
  pose proof (Z.div_mod n b ltac:(lia)) as Hdm.
  pose proof (Z.mod_pos_bound n b Hb) as Hmod.
  assert (Hq : 0 <= n / b) by (apply Z.div_pos; lia).
  assert (Hceil : (n - 0 + b - 1) / b
                  = n / b + (if 0 <? n mod b then 1 else 0)).
  { replace (n - 0 + b - 1) with ((n mod b + b - 1) + (n / b) * b) by lia.
    rewrite Z.div_add by lia.
    destruct (Z.ltb_spec 0 (n mod b)).
    - replace (n mod b + b - 1) with ((n mod b - 1) + 1 * b) by lia.
      rewrite Z.div_add by lia. rewrite Z.div_small by lia. lia.
    - rewrite Z.div_small by lia. lia. }
  unfold total_chunks. fold n.
  destruct (Z.ltb_spec 0 (n mod b)); destruct (Z.leb_spec sample_rate (n mod b));
    simpl; lia.
Qed.

End ChunkerFacts.

Lemma chunker_partition_witness :
  0 < 4 /\
  exists chunks,
    Chunking.chunker [1; 2; 3; 4; 5; 6; 7; 8; 9; 10]%nat 4 = Some chunks /\
    concat chunks = [1; 2; 3; 4; 5; 6; 7; 8; 9; 10]%nat /\
    (forall i c, chunks !! i = Some c ->
       c <> [] /\ Z.of_nat (length c) <= 4 /\
       ((S i < length chunks)%nat -> Z.of_nat (length c) = 4)).
Proof.
  split; [lia|]. apply (chunker_partition [1; 2; 3; 4; 5; 6; 7; 8; 9; 10]%nat 4). lia.
Defined.

Lemma submitted_frames_count_witness :
  0 < 2 /\
  exists frames,
    Chunking.submitted_frames [1; 2; 3; 4; 5]%nat 2 = Some frames /\
    Z.of_nat (length frames) = 2.
Proof.
  split; [lia|]. apply (submitted_frames_count [1; 2; 3; 4; 5]%nat 2). lia.
Defined.

(** ** Event extraction *)

Section EventFacts.
Import Events.

Lemma Qmax_cases (x y : Q) : Qmax x y = x \/ Qmax x y = y.
Proof.
  unfold Qmax, GenericMinMax.gmax. destruct (x ?= y)%Q; auto.
Qed.

Lemma fold_Qmax_is_max (xs : list Q) (x : Q) :
  is_max (fold_left Qmax xs x) (x :: xs).
Proof.
  revert x. induction xs as [|y ys IH]; intros x; simpl.
  - split; [left; reflexivity|]. constructor; [apply Qle_refl|constructor].
  - destruct (IH (Qmax x y)) as [Hin Hall]. split.
    + destruct Hin as [Hin|Hin].
      * destruct (Qmax_cases x y) as [E|E].
        -- left. rewrite <- Hin. symmetry. exact E.
        -- right; left. rewrite <- Hin. symmetry. exact E.
      * right; right; exact Hin.
    + inversion Hall as [|? ? Hm Hrest]; subst.
      constructor; [|constructor].
      * eapply Qle_trans; [apply Q.le_max_l|exact Hm].
      * eapply Qle_trans; [apply Q.le_max_r|exact Hm].
      * exact Hrest.
Qed.

Lemma amax_is_max (w : list Q) (m : Q) : amax w = Some m -> is_max m w.
Proof.
  destruct w as [|x xs]; simpl; [discriminate|].
  intros [= <-]. apply fold_Qmax_is_max.
Qed.

Lemma amax_nonempty (w : list Q) : w <> [] -> exists m, amax w = Some m.
Proof.
  destruct w as [|x xs]; [congruence|]. intros _. simpl. eauto.
Qed.

Lemma reshape_rows_spec (q : nat) : forall (fuel : nat) (a : list Q) (cols : nat),
  (0 < cols)%nat -> (length a <= fuel)%nat -> length a = (q * cols)%nat ->
  reshape_rows fuel a cols
  = map (fun i => take cols (drop (i * cols) a)) (seq 0 q).
Proof.
  induction q as [|q IH]; intros fuel a cols Hc Hf Hl.
  - destruct a; [|simpl in Hl; lia]. destruct fuel; reflexivity.
  - destruct a as [|x a]; [simpl in Hl; lia|].
    destruct fuel as [|fuel]; [simpl in Hf; lia|].
    cbn [reshape_rows seq map]. f_equal.
    rewrite (IH fuel (drop cols (x :: a)) cols Hc).
    + rewrite <- seq_shift, map_map. apply map_ext. intros i.
      rewrite drop_drop. reflexivity.
    + rewrite length_drop. simpl in *. lia.
    + rewrite length_drop. rewrite Hl. lia.
Qed.

(** C4. For a confidence column of length [L] and a precision [P > 0],
    [subsample] returns [ceil(L / P)] pooled values; each of the first
    [floor(L / P)] is the maximum of its [P] consecutive column members,
    and when [L mod P] is not zero the last one is the maximum of the
    remaining [L mod P] members. *)
Theorem subsample_pooling (frame : list Q) (P : Z) :
  0 < P ->
  let L := Z.of_nat (length frame) in
  exists pooled,
    subsample frame P = Some pooled /\
    Z.of_nat (length pooled) = (L + P - 1) / P /\
    (forall i : nat, Z.of_nat i < L / P ->
       let window := take (Z.to_nat P) (drop (i * Z.to_nat P) frame) in
       Z.of_nat (length window) = P /\
       exists m, pooled !! i = Some m /\ is_max m window) /\
    (L mod P <> 0 ->
       let residual := drop (Z.to_nat (L - L mod P)) frame in
       Z.of_nat (length residual) = L mod P /\
       exists m, pooled !! Z.to_nat (L / P) = Some m /\ is_max m residual).
Proof.
  intros HP L. unfold subsample.
  destruct (Z.leb_spec P 0) as [?|_]; [lia|]. fold L.
  pose proof (Z.div_mod L P ltac:(lia)) as Hdm.
  pose proof (Z.mod_pos_bound L P HP) as Hmod.
  assert (HL : 0 <= L) by (subst L; lia).
  assert (Hq : 0 <= L / P) by (apply Z.div_pos; lia).
  set (cols := Z.to_nat P). set (q := Z.to_nat (L / P)).
  set (cut := Z.to_nat (L - L mod P)).
  assert (Hcut : cut = (q * cols)%nat) by (subst cut q cols; nia).
  assert (Hcutle : (cut <= length frame)%nat) by (subst cut L; lia).
  rewrite (reshape_rows_spec q) by
    (try rewrite length_take; subst cols; lia).
  set (rows := map _ (seq 0 q)).
  assert (Hrow : forall i, (i < q)%nat ->
            rows !! i = Some (take cols (drop (i * cols) frame))).
  { intros i Hi. subst rows. rewrite list_lookup_fmap.
    rewrite lookup_seq_lt by exact Hi. simpl. f_equal.
    rewrite !take_drop_commute, take_take. do 2 f_equal. nia. }
  assert (Hrowlen : forall i, (i < q)%nat ->
            length (take cols (drop (i * cols) frame)) = cols).
  { intros i Hi. rewrite length_take, length_drop. nia. }
  assert (Hrows_len : length rows = q) by (subst rows; rewrite length_map, length_seq; reflexivity).
  assert (Hmap : is_Some (mapM amax rows)).
  { apply mapM_is_Some.
    apply Forall_lookup. intros i w Hw. unfold compose.
    assert (Hi : (i < q)%nat) by (rewrite <- Hrows_len; eapply lookup_lt_Some; eauto).
    rewrite (Hrow i Hi) in Hw. injection Hw as <-.
    destruct (amax_nonempty (take cols (drop (i * cols) frame))) as [m Hm]; [|eauto].
    intros E. apply (f_equal length) in E. rewrite (Hrowlen i Hi) in E.
    simpl in E. subst cols. lia. }
  destruct Hmap as [means Hmeans]. rewrite Hmeans.
  pose proof (proj1 (mapM_Some _ _ _) Hmeans) as HF2.
  assert (Hmeans_len : length means = q).
  { rewrite <- (Forall2_length _ _ _ HF2). exact Hrows_len. }
  assert (Hfirst : forall i : nat, Z.of_nat i < L / P ->
            Z.of_nat (length (take cols (drop (i * cols) frame))) = P /\
            exists m, means !! i = Some m /\
                      is_max m (take cols (drop (i * cols) frame))).
  { intros i Hi. assert (Hi' : (i < q)%nat) by (subst q; lia).
    split; [rewrite (Hrowlen i Hi'); subst cols; lia|].
    destruct (Forall2_lookup_l _ _ _ _ _ HF2 (Hrow i Hi')) as (m & Hm & Ham).
    exists m. split; [exact Hm|]. apply amax_is_max. exact Ham. }
  assert (Hceil : (L + P - 1) / P = L / P + (if L mod P =? 0 then 0 else 1)).
  { replace (L + P - 1) with ((L mod P + P - 1) + (L / P) * P) by lia.
    rewrite Z.div_add by lia.
    destruct (Z.eqb_spec (L mod P) 0).
    - rewrite Z.div_small by lia. lia.
    - replace (L mod P + P - 1) with ((L mod P - 1) + 1 * P) by lia.
      rewrite Z.div_add by lia. rewrite Z.div_small by lia. lia. }
  destruct (Z.eqb_spec (L mod P) 0) as [Hz|Hnz]; simpl.
  - exists means. split; [reflexivity|]. split; [subst q; lia|].
    split; [exact Hfirst|]. intros; lia.
  - assert (Hreslen : length (drop cut frame) = Z.to_nat (L mod P)).
    { rewrite length_drop. subst cut L. lia. }
    destruct (amax_nonempty (drop cut frame)) as [rm Hrm].
    { intros E. apply (f_equal length) in E. rewrite Hreslen in E. simpl in E. lia. }
    rewrite Hrm. exists (means ++ [rm]). split; [reflexivity|].
    split; [rewrite length_app; simpl; subst q; lia|]. split.
    + intros i Hi. destruct (Hfirst i Hi) as [Hl (m & Hm & Hmax)].
      split; [exact Hl|]. exists m. split; [|exact Hmax].
      rewrite lookup_app_l; [exact Hm|]. subst q; lia.
    + intros _. split; [rewrite Hreslen; lia|]. exists rm. split.
      * fold q. rewrite lookup_app_r by lia.
        rewrite Hmeans_len, Nat.sub_diag. reflexivity.
      * apply amax_is_max. exact Hrm.
Qed.

End EventFacts.

Section ThresholdFacts.
Import Events.

(** A score that passes the comparison with [threshold / 100] also passes
    the integer comparison of [print_results], so the [break] of
    [print_results] is never taken on the filtered indices. *)
Lemma Qtrunc_threshold (s : Q) (t : Z) :
  Qle_bool (inject_Z t / 100) s = true -> (t <=? Qtrunc (s * 100)) = true.
Proof.
  intros H. apply Qle_bool_iff in H. apply Z.leb_le.
  destruct s as [a d]. unfold Qle in H. unfold Qtrunc. simpl in *.
  rewrite Pos.mul_1_r.
  assert (Hd : 0 < Z.pos d) by lia.
  assert (Ht : t * Z.pos d <= a * 100) by lia. clear H.
  destruct (Z.le_gt_cases 0 (a * 100)) as [Hnn|Hneg].
  - rewrite Z.quot_div_nonneg by lia. apply Z.div_le_lower_bound; lia.
  - replace (a * 100) with (- (- (a * 100))) by lia.
    rewrite Z.quot_opp_l by lia.
    rewrite Z.quot_div_nonneg by lia.
    assert ((- (a * 100)) / Z.pos d < - t + 1); [|lia].
    apply Z.div_lt_upper_bound; lia.
Qed.



Lemma filtered_indices_pass scores (t : Z) :
  Forall (fun i => exists s, scores !! i = Some s /\
                             (t <=? Qtrunc (s * 100)) = true)
         (filtered_indices scores (inject_Z t / 100)).
Proof.
  unfold filtered_indices. apply List.Forall_forall. intros i Hi.
  apply List.filter_In in Hi. destruct Hi as [_ Hi].
  destruct (scores !! i) as [s|]; [|discriminate].
  exists s. split; [reflexivity|]. apply Qtrunc_threshold. exact Hi.
Qed.




End ThresholdFacts.

Lemma subsample_pooling_witness :
  0 < 2 /\
  exists pooled,
    Events.subsample [5 # 100; 95 # 100; 10 # 100; 80 # 100; 0 # 100]%Q 2 = Some pooled /\
    Z.of_nat (length pooled) = 3.
Proof.
  split; [lia|].
  destruct (subsample_pooling [5 # 100; 95 # 100; 10 # 100; 80 # 100; 0 # 100]%Q 2
              ltac:(lia)) as (pooled & H1 & H2 & _).
  exists pooled. split; [exact H1|exact H2].
Defined.


(** End-to-end scenario of the pooling and filtering: column
    [5, 95, 10, 80, 0] (percent), precision 2, threshold 50. *)
Example scenario_pooling :
  Events.subsample [5 # 100; 95 # 100; 10 # 100; 80 # 100; 0 # 100]%Q 2
  = Some [95 # 100; 80 # 100; 0 # 100]%Q.
Proof. reflexivity. Qed.

Example scenario_filtering :
  option_map (map Events.confidence_percent)
    (Events.print_timestamps [[5 # 100]; [95 # 100]; [10 # 100]; [80 # 100]; [0 # 100]]%Q
       2 50 0 0)
  = Some [95; 80].
Proof. reflexivity. Qed.

(** ** Identifiers of URL variants *)

Section UrlFacts.
Import Str Resolver.
Open Scope string_scope.

Local Opaque Ascii.eqb.

Local Ltac eqb_facts H :=
  repeat match goal with
         | H' : (_ && _)%bool = true |- _ =>
             apply andb_prop in H'; destruct H' as [? H']
         | H' : Ascii.eqb _ _ = true |- _ =>
             apply Ascii.eqb_eq in H'; first [discriminate H'|subst]
         end.

(** An occurrence of ["/shorts/"] that begins inside [p], in [p] followed
    by a slash, begins with ["/shorts"] inside [p]. *)
Lemma startswith_shorts_app (p rest : string) :
  p <> EmptyString ->
  startswith "/shorts/" (p ++ String "/" rest) = true ->
  startswith "/shorts" p = true.
Proof.
  intros Hp H.
  destruct p as [|c0 p]; [congruence|]. clear Hp.
  do 7 (simpl in H; eqb_facts H;
        try (destruct p as [|? p]; [simpl in H; eqb_facts H|])).
  all: vm_compute; reflexivity.
Qed.

Lemma contains_cons p c s :
  contains p (String c s) = startswith p (String c s) || contains p s.
Proof. reflexivity. Qed.

(** [replace] copies a prefix that holds no ["/shorts"] when a slash
    follows it. *)
Lemma replace_shorts_prefix (p rest : string) :
  contains "/shorts" p = false ->
  replace_shorts (p ++ String "/" rest) = p ++ replace_shorts (String "/" rest).
Proof.
  unfold replace_shorts, replace. induction p as [|c p IH]; intros Hc; [reflexivity|].
  rewrite contains_cons in Hc. apply orb_false_elim in Hc as [Hs Hc].
  change (String c p ++ String "/" rest) with (String c (p ++ String "/" rest)).
  cbn [replace_from].
  destruct (startswith "/shorts/" (String c (p ++ String "/" rest))) eqn:E.
  - apply (startswith_shorts_app (String c p)) in E; congruence.
  - rewrite IH by exact Hc. reflexivity.
Qed.

(** The short form [p/shorts/x] and the long form [p/watch?v=x] of one
    item are rewritten to the same URL, hence to the same identifier, when
    ["/shorts"] does not occur in [p]. *)
Lemma shorts_form_identifier (p x : string) :
  contains "/shorts" p = false ->
  original_youtube_url (p ++ "/shorts/" ++ x)
  = original_youtube_url (p ++ "/watch?v=" ++ x)
  /\ video_id (p ++ "/shorts/" ++ x) = video_id (p ++ "/watch?v=" ++ x).
Proof.
  intros Hc.
  assert (E : original_youtube_url (p ++ "/shorts/" ++ x)
              = original_youtube_url (p ++ "/watch?v=" ++ x)).
  { unfold original_youtube_url.
    change ("/shorts/" ++ x) with (String "/" ("shorts/" ++ x)).
    change ("/watch?v=" ++ x) with (String "/" ("watch?v=" ++ x)).
    rewrite !replace_shorts_prefix by exact Hc. f_equal. }
  split; [exact E|]. unfold video_id. rewrite E. reflexivity.
Qed.

End UrlFacts.

Local Transparent Ascii.eqb.

(** C7 at a short link: the [youtu.be] form of an item is not rewritten,
    no ["watch?v="] occurs in it, and [split("watch?v=")[-1]] returns the
    whole URL, while the [watch?v=] form of the same item gives the bare
    id.  The [/shorts/] form does give the id of the [watch?v=] form. *)
Theorem short_link_identifier :
  Resolver.video_id Sample.short_link = Sample.short_link /\
  Resolver.video_id Sample.long_link = "dQw4w9WgXcQ"%string /\
  Resolver.video_id Sample.shorts_link = "dQw4w9WgXcQ"%string /\
  Resolver.video_id Sample.short_link <> Resolver.video_id Sample.long_link /\
  Resolver.urls_of_txt [Sample.short_link; Sample.long_link]
  = [Sample.short_link; Sample.long_link] /\
  map Resolver.video_id_of (Resolver.urls_of_txt [Sample.short_link; Sample.long_link])
  = [Sample.short_link; "dQw4w9WgXcQ"%string].
Proof.
  repeat split; try (vm_compute; reflexivity).
  vm_compute. discriminate.
Qed.

(** The consequence for the asset index: the file of the item is found
    under the id that the fetcher reports, and not under the key that the
    pre-check derives from the short link. *)
Example short_link_not_cached :
  AssetIndex.precheck_files_for_urls [Sample.short_link] [Sample.file_song] = ∅ /\
  AssetIndex.scan_single "dQw4w9WgXcQ" [Sample.file_song] = Some Sample.file_song.
Proof. split; vm_compute; reflexivity. Qed.

(** ** Pre-check dictionaries *)

Section PrecheckFacts.

Lemma log_step_keys url_list (m : gmap string (bool * bool)) r k :
  is_Some (Ledger.log_step url_list m r !! k) ->
  is_Some (m !! k) \/ exists u, u ∈ url_list /\ Resolver.video_id_of u = k.
Proof.
  unfold Ledger.log_step. case_bool_decide as Hin; [|auto].
  cbv zeta. intros H.
  destruct (decide (Resolver.video_id_of (Ledger.row_url r) = k)) as [E|N].
  - right. eauto.
  - rewrite lookup_insert_ne in H by exact N. auto.
Qed.

(** Every key of [log_precheck_results] is the identifier of a URL of the
    batch. *)
Lemma precheck_log_keys url_list rows k :
  is_Some (Ledger.precheck_log_for_urls url_list rows !! k) ->
  exists u, u ∈ url_list /\ Resolver.video_id_of u = k.
Proof.
  unfold Ledger.precheck_log_for_urls.
  assert (G : forall m,
             is_Some (fold_left (Ledger.log_step url_list) rows m !! k) ->
             is_Some (m !! k) \/ exists u, u ∈ url_list /\ Resolver.video_id_of u = k).
  { induction rows as [|r rows IH]; intros m; simpl; [auto|].
    intros H. destruct (IH _ H) as [H'|H']; [|auto].
    apply (log_step_keys _ _ _ _ H'). }
  intros H. destruct (G _ H) as [H'|H']; [|exact H'].
  rewrite lookup_empty in H'. destruct H' as [? ?]; discriminate.
Qed.

Lemma scan_extensions_keys vid exts listing (m : gmap string string) k :
  is_Some (AssetIndex.scan_extensions vid exts listing m !! k) ->
  is_Some (m !! k) \/ vid = k.
Proof.
  revert m. induction exts as [|ext exts IH]; intros m; simpl; [auto|].
  assert (Hins : forall k',
            is_Some (match AssetIndex.find_file vid ext listing with
                     | Some file => <[vid:=file]> m
                     | None => m
                     end !! k') -> is_Some (m !! k') \/ vid = k').
  { intros k'. destruct (AssetIndex.find_file vid ext listing); [|auto].
    destruct (decide (vid = k')) as [E|N]; [auto|].
    rewrite lookup_insert_ne by exact N. auto. }
  case_bool_decide.
  - apply Hins.
  - intros H'. destruct (IH _ H') as [H''|H'']; [|auto]. apply Hins. exact H''.
Qed.

(** Every key of [file_precheck_results] is the identifier of a URL of the
    batch. *)
Lemma precheck_files_keys url_list listing k :
  is_Some (AssetIndex.precheck_files_for_urls url_list listing !! k) ->
  exists u, u ∈ url_list /\ Resolver.video_id_of u = k.
Proof.
  unfold AssetIndex.precheck_files_for_urls.
  assert (G : forall l m,
             (forall u, u ∈ l -> u ∈ url_list) ->
             is_Some (fold_left
                        (fun fr url =>
                           AssetIndex.scan_extensions (Resolver.video_id_of url)
                             AssetIndex.possible_extensions listing fr) l m !! k) ->
             is_Some (m !! k) \/ exists u, u ∈ url_list /\ Resolver.video_id_of u = k).
  { induction l as [|u l IH]; intros m Hsub; cbn [fold_left]; [auto|].
    intros H. destruct (IH _ ltac:(intros; apply Hsub; set_solver) H) as [H'|H']; [|auto].
    destruct (scan_extensions_keys _ _ _ _ _ H') as [H''|H'']; [auto|].
    right. exists u. split; [apply Hsub; set_solver|exact H'']. }
  intros H. destruct (G url_list ∅ ltac:(auto) H) as [H'|H']; [|exact H'].
  rewrite lookup_empty in H'. destruct H' as [? ?]; discriminate.
Qed.

(** A dictionary whose keys all occur in a list has at most as many keys as
    the list has elements; with as many, the list has no repetition and
    all its elements are keys. *)
Lemma keys_size {V} (m : gmap string V) (l : list string) :
  (forall k, is_Some (m !! k) -> k ∈ l) ->
  (size m <= length l)%nat /\
  (size m = length l -> NoDup l /\ forall k, k ∈ l -> is_Some (m !! k)).
Proof.
  intros Hsub.
  assert (Hsz : size m = length (elements (dom m))).
  { rewrite <- size_dom. reflexivity. }
  assert (Hsm : elements (dom m) ⊆+ l).
  { apply NoDup_submseteq; [apply NoDup_elements|].
    intros k Hk. apply Hsub. apply elem_of_dom. apply elem_of_elements. exact Hk. }
  split.
  - rewrite Hsz. apply submseteq_length. exact Hsm.
  - intros E. assert (Hp : elements (dom m) ≡ₚ l).
    { apply submseteq_length_Permutation; [exact Hsm|]. rewrite <- Hsz, E. lia. }
    split.
    + rewrite <- Hp. apply NoDup_elements.
    + intros k Hk. apply elem_of_dom. apply elem_of_elements. rewrite Hp. exact Hk.
Qed.

Lemma keys_size_full {V} (m : gmap string V) (l : list string) :
  NoDup l ->
  (forall k, is_Some (m !! k) <-> k ∈ l) ->
  size m = length l.
Proof.
  intros Hnd Hk. rewrite <- size_dom.
  rewrite <- (size_list_to_set (C := gset string) l Hnd).
  f_equal. apply set_eq. intros k. rewrite elem_of_dom, elem_of_list_to_set.
  apply Hk.
Qed.

End PrecheckFacts.

(** ** The filter loop *)

Section FilterFacts.
Import Reconcile.

Lemma filter_loop_filter p log files urls :
  filter_loop p log files urls = List.filter (selects_url p log files) urls.
Proof.
  unfold filter_loop.
  assert (G : forall acc,
             fold_left (fun urls_to_process url =>
                          if selects_url p log files url
                          then urls_to_process ++ [url] else urls_to_process)
                       urls acc
             = acc ++ List.filter (selects_url p log files) urls).
  { induction urls as [|u urls IH]; intros acc; simpl.
    - rewrite app_nil_r. reflexivity.
    - rewrite IH. destruct (selects_url p log files u); [|reflexivity].
      rewrite <- app_assoc. reflexivity. }
  apply (G []).
Qed.

Lemma filter_loop_elem p log files urls url :
  url ∈ filter_loop p log files urls <->
  url ∈ urls /\ selects_url p log files url = true.
Proof.
  rewrite filter_loop_filter, !list_elem_of_In. apply List.filter_In.
Qed.

(** When the test fails on every URL, the loop that iterates the list it
    appends to ends after one pass and leaves the list as it was. *)
Lemma filter_loop_aliased_none p log files urls :
  (forall u, u ∈ urls -> selects_url p log files u = false) ->
  forall fuel i, (length urls - i < fuel)%nat ->
    filter_loop_aliased fuel p log files i urls = Some urls.
Proof.
  intros Hno. induction fuel as [|fuel IH]; intros i Hf; [lia|]. simpl.
  destruct (urls !! i) as [u|] eqn:E; [|reflexivity].
  rewrite (Hno u) by (eapply list_elem_of_lookup_2; eauto).
  apply IH. apply lookup_lt_Some in E. lia.
Qed.

(** With [len(log_precheck_results) == len(urls)] every URL of the batch is
    logged and no identifier occurs twice. *)
Lemma all_logged_of_size urls rows :
  size (Ledger.precheck_log_for_urls urls rows) = length urls ->
  NoDup (map Resolver.video_id_of urls) /\
  forall u, u ∈ urls ->
    is_Some (Ledger.precheck_log_for_urls urls rows !! Resolver.video_id_of u).
Proof.
  intros Hsz.
  destruct (keys_size (Ledger.precheck_log_for_urls urls rows)
              (map Resolver.video_id_of urls)) as [_ H].
  - intros k Hk. destruct (precheck_log_keys _ _ _ Hk) as (u & Hu & <-).
    apply list_elem_of_fmap. eauto.
  - rewrite length_map in H. destruct (H Hsz) as [Hnd Hall]. split; [exact Hnd|].
    intros u Hu. apply Hall. apply list_elem_of_fmap. eauto.
Qed.

End FilterFacts.

(** ** The batch decision block *)

Section DecisionFacts.
Import Reconcile Console.

(** Only the answer [y] to the re-run question leaves [urls_to_process]
    bound to the list [urls] itself. *)
Lemma decide_batch_aliased urls log files c p c' :
  decide_batch urls log files c = (Continue p true, c') ->
  p = PNone /\ size log = length urls.
Proof.
  unfold decide_batch.
  destruct (fully_satisfied urls log files) eqn:Hfull.
  - unfold fully_satisfied in Hfull. apply andb_prop in Hfull as [H1 _].
    apply Nat.eqb_eq in H1.
    destruct (input AskRerunAll c) as [[a c1]|]; [|discriminate].
    destruct (String.eqb a "y"); [|discriminate].
    intros [= <- _]. auto.
  - destruct (inconsistent urls log files); [|discriminate].
    destruct (input AskBatchPolicy c) as [[a c1]|]; [|discriminate].
    repeat match goal with
           | |- context [if ?b then _ else _] => destruct b
           end; discriminate.
Qed.

Lemma selects_unlogged p cached n :
  selects p false cached n = match p with PTrue => cached | _ => true end.
Proof. destruct p, cached; reflexivity. Qed.

(** C1 (amended). An identifier of the batch that is not logged is selected
    for processing under [PROCESS_ALL] (["all"]), under
    [SKIP_LOGGED_PROCESS_NEW] ([False]) and when no policy is chosen
    ([None]); under [REDOWNLOAD_LOGGED_MISSING] ([True]) it is selected
    exactly when it is cached.  So an identifier neither logged nor cached
    is in the list of URLs to process under the first three, and is left
    out under [REDOWNLOAD_LOGGED_MISSING]. *)
Theorem unlogged_selection fuel urls rows listing c selected p c' url :
  reconcile fuel urls rows listing c = (Selected selected p, c') ->
  url ∈ urls ->
  Ledger.precheck_log_for_urls urls rows !! Resolver.video_id_of url = None ->
  (p <> PTrue -> url ∈ selected) /\
  (p = PTrue ->
   (url ∈ selected <->
    is_Some (AssetIndex.precheck_files_for_urls urls listing
               !! Resolver.video_id_of url))).
Proof.
  unfold reconcile, reconcile_with. intros Hrec Hin Hlog.
  set (log := Ledger.precheck_log_for_urls urls rows) in *.
  set (files := AssetIndex.precheck_files_for_urls urls listing) in *.
  destruct (decide_batch urls log files c) as [[code|q [|]|] c1] eqn:Hd;
    try discriminate.
  - (* the list is [urls] itself: every URL is logged *)
    exfalso. destruct (decide_batch_aliased _ _ _ _ _ _ Hd) as [_ Hsz].
    destruct (all_logged_of_size urls rows Hsz) as [_ Hall].
    specialize (Hall url Hin). fold log in Hall. rewrite Hlog in Hall.
    destruct Hall as [? ?]; discriminate.
  - injection Hrec as <- <- <-.
    assert (Hsel : selects_url q log files url
                   = match q with
                     | PTrue => bool_decide (is_Some (files !! Resolver.video_id_of url))
                     | _ => true
                     end).
    { unfold selects_url. rewrite Hlog.
      rewrite (bool_decide_eq_false_2 (is_Some None)) by (intros [? ?]; discriminate).
      apply selects_unlogged. }
    split.
    + intros Hq. apply filter_loop_elem. split; [exact Hin|].
      rewrite Hsel. destruct q; congruence.
    + intros ->. rewrite filter_loop_elem, Hsel. split.
      * intros [_ H]. apply bool_decide_eq_true_1 in H. exact H.
      * intros H. split; [exact Hin|]. apply bool_decide_eq_true_2. exact H.
Qed.

(** On a batch without repeated identifiers in which every identifier is
    logged and cached, the block asks the re-run question and nothing
    else: any answer but [y] exits with code 0, and [y] selects the whole
    batch. *)
Lemma rerun_question_distinct fuel urls rows listing c a rest :
  NoDup (map Resolver.video_id_of urls) ->
  (forall u, u ∈ urls ->
     is_Some (Ledger.precheck_log_for_urls urls rows !! Resolver.video_id_of u) /\
     is_Some (AssetIndex.precheck_files_for_urls urls listing
                !! Resolver.video_id_of u)) ->
  answers c = a :: rest ->
  (length urls < fuel)%nat ->
  reconcile fuel urls rows listing c
  = (if String.eqb (lower (Str.strip a)) "y" then Selected urls PNone else Exited 0,
     Console rest (asked c ++ [AskRerunAll])).
Proof.
  intros Hnd Hall Hans Hfuel. unfold reconcile, reconcile_with.
  set (log := Ledger.precheck_log_for_urls urls rows) in *.
  set (files := AssetIndex.precheck_files_for_urls urls listing) in *.
  assert (Hlog : size log = length urls).
  { rewrite <- (length_map Resolver.video_id_of).
    apply keys_size_full; [exact Hnd|]. intros k. split.
    - intros Hk. destruct (precheck_log_keys _ _ _ Hk) as (u & Hu & <-).
      apply list_elem_of_fmap. eauto.
    - intros Hk. apply list_elem_of_fmap in Hk as (u & -> & Hu).
      apply (Hall u Hu). }
  assert (Hfiles : size files = length urls).
  { rewrite <- (length_map Resolver.video_id_of).
    apply keys_size_full; [exact Hnd|]. intros k. split.
    - intros Hk. destruct (precheck_files_keys _ _ _ Hk) as (u & Hu & <-).
      apply list_elem_of_fmap. eauto.
    - intros Hk. apply list_elem_of_fmap in Hk as (u & -> & Hu).
      apply (Hall u Hu). }
  unfold decide_batch, fully_satisfied. rewrite Hlog, Hfiles, !Nat.eqb_refl.
  cbn [andb]. unfold input. rewrite Hans.
  destruct (String.eqb (lower (Str.strip a)) "y"); [|reflexivity].
  rewrite (filter_loop_aliased_none PNone log files urls); [reflexivity| |lia].
  intros u Hu. unfold selects_url.
  rewrite (bool_decide_eq_true_2 _ (proj1 (Hall u Hu))). reflexivity.
Qed.

End DecisionFacts.

Section ExitFacts.
Import Reconcile Console Pipeline.

Variable metadata : string -> option (string * string).
Variable fetch : string -> list string -> option string.
Variable download_tiktok download_twitch download_soop
  : string -> list string -> option (string * string) * list string.
Variable ffmpeg : string -> list Z.
Variable classifier : list Q -> list (list Q).
Variable now : nat -> string.

(** C9. When the four-way question is asked, the answer [y]
    ([REDOWNLOAD_LOGGED_MISSING]) with no logged-but-missing identifier and
    the answer [n] ([SKIP_LOGGED_PROCESS_NEW]) with no identifier left to
    download and process both end the run with [sys.exit(0)] before the
    main loop starts: no item is begun and only the console has changed. *)
Theorem empty_policy_exits fuel processing a urls s user_decision c' :
  let log := Ledger.precheck_log_for_urls urls (ledger s) in
  let on_disk := AssetIndex.precheck_files_for_urls urls (listing s) in
  urls <> [] ->
  fully_satisfied urls log on_disk = false ->
  inconsistent urls log on_disk = true ->
  input AskBatchPolicy (console s) = Some (user_decision, c') ->
  (user_decision = "y"%string /\ logged_but_missing_files log on_disk = O) \/
  (user_decision = "n"%string /\ videos_to_process urls log = 0) ->
  run_batch metadata fetch download_tiktok download_twitch download_soop
    ffmpeg classifier now fuel processing a urls s
  = (SysExits 0, set_console c' s)
  /\ exit_code (SysExits 0) = Some 0
  /\ started (set_console c' s) = started s
  /\ total_videos (set_console c' s) = total_videos s.
Proof.
  intros log on_disk Hne Hfull Hinc Hin Hcase.
  split; [|split; [reflexivity|split; reflexivity]].
  unfold run_batch. destruct urls as [|u0 urls0]; [congruence|].
  fold log on_disk. unfold reconcile_with, decide_batch.
  rewrite Hfull, Hinc, Hin.
  destruct Hcase as [[-> Hz]|[-> Hz]].
  - cbn [String.eqb Ascii.eqb Bool.eqb]. rewrite Hz. cbn [Nat.eqb orb].
    rewrite orb_true_r. reflexivity.
  - cbn [String.eqb Ascii.eqb Bool.eqb]. rewrite Hz. reflexivity.
Qed.

End ExitFacts.

Section ReconcileExamples.
Import Reconcile Console Sample.

(** Scenario: [{a, b}], empty ledger, empty directory: no question is
    asked and both URLs are selected. *)
Example scenario_all_new :
  reconcile 10 [url_a; url_b] [] [] (Console [] [])
  = (Selected [url_a; url_b] PNone, Console [] []).
Proof. vm_compute. reflexivity. Qed.

(** Scenario: [{a}] logged for class 60 and cached: the re-run question is
    asked and the answer [n] exits with code 0. *)
Example scenario_fully_satisfied :
  reconcile 10 [url_a] [row_60 url_a "Title A"] [file_a] (Console ["n"%string] [])
  = (Exited 0, Console [] [AskRerunAll]).
Proof. vm_compute. reflexivity. Qed.

End ReconcileExamples.

Lemma unlogged_selection_witness :
  let urls := [Sample.url_a; Sample.url_b] in
  let rows := [Sample.row_60 Sample.url_a "Title A"] in
  (Reconcile.reconcile 10 urls rows [] (Console.Console ["n"%string] [])
   = (Reconcile.Selected [Sample.url_b] Reconcile.PFalse,
      Console.Console [] [AskBatchPolicy]) /\
   Sample.url_b ∈ urls /\
   Ledger.precheck_log_for_urls urls rows !! Resolver.video_id_of Sample.url_b = None /\
   (Reconcile.PFalse <> Reconcile.PTrue -> Sample.url_b ∈ [Sample.url_b])) /\
  (Reconcile.reconcile 10 urls rows [Sample.file_b] (Console.Console ["y"%string] [])
   = (Reconcile.Selected [Sample.url_a; Sample.url_b] Reconcile.PTrue,
      Console.Console [] [AskBatchPolicy]) /\
   (Sample.url_b ∈ [Sample.url_a; Sample.url_b] <->
    is_Some (AssetIndex.precheck_files_for_urls urls [Sample.file_b]
               !! Resolver.video_id_of Sample.url_b))).
Proof.
  intros urls rows.
  assert (H1 : Reconcile.reconcile 10 urls rows [] (Console.Console ["n"%string] [])
               = (Reconcile.Selected [Sample.url_b] Reconcile.PFalse,
                  Console.Console [] [AskBatchPolicy])).
  { vm_compute. reflexivity. }
  assert (H1' : Reconcile.reconcile 10 urls rows [Sample.file_b]
                  (Console.Console ["y"%string] [])
                = (Reconcile.Selected [Sample.url_a; Sample.url_b] Reconcile.PTrue,
                   Console.Console [] [AskBatchPolicy])).
  { vm_compute. reflexivity. }
  assert (H2 : Sample.url_b ∈ urls).
  { apply list_elem_of_In. simpl. auto. }
  assert (H3 : Ledger.precheck_log_for_urls urls rows
                 !! Resolver.video_id_of Sample.url_b = None).
  { vm_compute. reflexivity. }
  split.
  - split; [exact H1|]. split; [exact H2|]. split; [exact H3|].
    exact (proj1 (unlogged_selection 10 urls rows [] _ _ _ _ Sample.url_b H1 H2 H3)).
  - split; [exact H1'|].
    exact (proj2 (unlogged_selection 10 urls rows [Sample.file_b] _ _ _ _
                    Sample.url_b H1' H2 H3) eq_refl).
Defined.

(** C1 as stated fails: with the answer [y] (re-download only the logged
    items whose file is missing) the URL [url_b], which is neither logged
    nor cached, is not in the list of URLs to process. *)
Lemma unlogged_left_out_on_redownload :
  let urls := [Sample.url_a; Sample.url_b] in
  let rows := [Sample.row_60 Sample.url_a "Title A"] in
  Reconcile.reconcile 10 urls rows [] (Console.Console ["y"%string] [])
  = (Reconcile.Selected [Sample.url_a] Reconcile.PTrue,
     Console.Console [] [AskBatchPolicy]) /\
  Sample.url_b ∈ urls /\
  Ledger.precheck_log_for_urls urls rows !! Resolver.video_id_of Sample.url_b = None /\
  AssetIndex.precheck_files_for_urls urls [] !! Resolver.video_id_of Sample.url_b = None /\
  Sample.url_b ∉ [Sample.url_a].
Proof.
  intros urls rows.
  split; [vm_compute; reflexivity|].
  split; [apply list_elem_of_In; simpl; auto|].
  split; [vm_compute; reflexivity|].
  split; [vm_compute; reflexivity|].
  intros H. apply list_elem_of_In in H. simpl in H.
  destruct H as [H|[]]. discriminate H.
Qed.

Lemma empty_policy_exits_witness :
  let rows := [Sample.row_60 Sample.url_a "Title A"] in
  let s := Pipeline.initial_state [Sample.file_a] rows ["y"%string] in
  let urls := [Sample.url_a; Sample.url_b] in
  let s' := Pipeline.initial_state [] rows ["n"%string] in
  let urls' := [Sample.url_a] in
  (Reconcile.logged_but_missing_files
     (Ledger.precheck_log_for_urls urls (Pipeline.ledger s))
     (AssetIndex.precheck_files_for_urls urls (Pipeline.listing s)) = O /\
   Pipeline.run_batch Sample.metadata Sample.fetch Sample.download_other
     Sample.download_other Sample.download_other Sample.ffmpeg Sample.classifier
     Sample.now 10 true Sample.options urls s
   = (Pipeline.SysExits 0,
      Pipeline.set_console (Console.Console [] [AskBatchPolicy]) s)) /\
  (Reconcile.videos_to_process urls'
     (Ledger.precheck_log_for_urls urls' (Pipeline.ledger s')) = 0 /\
   Pipeline.run_batch Sample.metadata Sample.fetch Sample.download_other
     Sample.download_other Sample.download_other Sample.ffmpeg Sample.classifier
     Sample.now 10 true Sample.options urls' s'
   = (Pipeline.SysExits 0,
      Pipeline.set_console (Console.Console [] [AskBatchPolicy]) s')).
Proof.
  intros rows s urls s' urls'.
  assert (Hz : Reconcile.logged_but_missing_files
                 (Ledger.precheck_log_for_urls urls (Pipeline.ledger s))
                 (AssetIndex.precheck_files_for_urls urls (Pipeline.listing s)) = O).
  { vm_compute. reflexivity. }
  assert (Hz' : Reconcile.videos_to_process urls'
                  (Ledger.precheck_log_for_urls urls' (Pipeline.ledger s')) = 0).
  { vm_compute. reflexivity. }
  split; (split; [assumption|]).
  - refine (proj1 (empty_policy_exits Sample.metadata Sample.fetch Sample.download_other
              Sample.download_other Sample.download_other Sample.ffmpeg
              Sample.classifier Sample.now 10 true Sample.options urls s "y"%string
              (Console.Console [] [AskBatchPolicy]) _ _ _ _ _)).
    + discriminate.
    + vm_compute. reflexivity.
    + vm_compute. reflexivity.
    + vm_compute. reflexivity.
    + left. split; [reflexivity|exact Hz].
  - refine (proj1 (empty_policy_exits Sample.metadata Sample.fetch Sample.download_other
              Sample.download_other Sample.download_other Sample.ffmpeg
              Sample.classifier Sample.now 10 true Sample.options urls' s' "n"%string
              (Console.Console [] [AskBatchPolicy]) _ _ _ _ _)).
    + discriminate.
    + vm_compute. reflexivity.
    + vm_compute. reflexivity.
    + vm_compute. reflexivity.
    + right. split; [reflexivity|exact Hz'].
Defined.

(** C2 at a batch that names one identifier twice: the identifier is logged
    and cached, yet the block does not ask the re-run question; it asks
    the four-way question, and the answer [n] goes on to a main loop over
    no item. *)
Theorem repeated_identifier_question :
  let urls := [Sample.url_a; Sample.url_a] in
  let rows := [Sample.row_60 Sample.url_a "Title A"] in
  let listing := [Sample.file_a] in
  Resolver.urls_of_txt [Sample.url_a; Sample.url_a] = urls /\
  Ledger.precheck_log_for_urls urls rows !! Resolver.video_id_of Sample.url_a
  = Some (true, false) /\
  AssetIndex.precheck_files_for_urls urls listing !! Resolver.video_id_of Sample.url_a
  = Some Sample.file_a /\
  Reconcile.fully_satisfied urls (Ledger.precheck_log_for_urls urls rows)
    (AssetIndex.precheck_files_for_urls urls listing) = false /\
  Reconcile.reconcile 10 urls rows listing (Console.Console ["n"%string] [])
  = (Reconcile.Selected [] Reconcile.PFalse, Console.Console [] [AskBatchPolicy]) /\
  option_map fst
    (Sample.run_list [Sample.url_a; Sample.url_a]
       (Pipeline.initial_state listing rows ["n"%string]))
  = Some Pipeline.Finished.
Proof.
  intros urls rows listing.
  repeat split; vm_compute; reflexivity.
Qed.

(** ** Sticky flags *)

Section StickyFacts.
Import Console Pipeline.





End StickyFacts.

Section DownloadFacts.
Import Console Pipeline.

Variable metadata : string -> option (string * string).
Variable fetch : string -> list string -> option string.









End DownloadFacts.

Section LoopFacts.
Import Console Pipeline.

Variable metadata : string -> option (string * string).
Variable fetch : string -> list string -> option string.
Variable download_tiktok download_twitch download_soop
  : string -> list string -> option (string * string) * list string.
Variable ffmpeg : string -> list Z.
Variable classifier : list Q -> list (list Q).
Variable now : nat -> string.

(** [download_audio] neither begins nor ends an item and does not write
    the ledger. *)
Lemma download_audio_keeps e url s :
  let s' := snd (download_audio metadata fetch e url s) in
  started s' = started s /\ ledger s' = ledger s /\ inferenced s' = inferenced s
  /\ printed s' = printed s.
Proof.
  unfold download_audio, unlogged_step, after_conflict, logged_step, missing_step,
    do_download, input.
  repeat case_match; simpl; auto.
Qed.








End LoopFacts.

Section FlagFacts.
Import Console Pipeline.

Variable metadata : string -> option (string * string).
Variable fetch : string -> list string -> option string.




End FlagFacts.

(** ** Decoding *)

Section DecoderFacts.
Import Decoder.





End DecoderFacts.

Section RunFacts.
Import Console Pipeline.

Variable metadata : string -> option (string * string).
Variable fetch : string -> list string -> option string.
Variable download_tiktok download_twitch download_soop
  : string -> list string -> option (string * string) * list string.
Variable ffmpeg : string -> list Z.
Variable classifier : list Q -> list (list Q).
Variable now : nat -> string.



End RunFacts.




(** Two cached items that are not logged: the answer [a] to the first
    question sets [use_existing_all], and the second item is reused with
    no further question. *)
Example scenario_use_existing_all :
  exists s',
    Sample.run_list [Sample.url_b; Sample.long_link]
      (Pipeline.initial_state [Sample.file_b; Sample.file_song] [] ["A"%string])
    = Some (Pipeline.Finished, s') /\
    Pipeline.use_existing_all s' = true /\
    Console.asked (Pipeline.console s') = [AskUseExisting] /\
    Pipeline.existing_files_used s' = 2%nat /\
    Pipeline.inferenced s' = [Sample.url_b; Sample.long_link].
Proof.
  eexists. split; [vm_compute; reflexivity|].
  repeat split.
Qed.

(** * Further properties *)

(** ** Frames and the unclassified tail *)

Section TailFacts.
Import Chunking.
Context {A : Type}.

Lemma concat_take_full (chunks : list (list A)) (k : nat) :
  (forall i c, chunks !! i = Some c -> (S i < length chunks)%nat -> length c = k) ->
  forall t, (t < length chunks)%nat -> length (concat (take t chunks)) = (t * k)%nat.
Proof.
  intros Hfull. induction t as [|t IH]; intros Ht; [reflexivity|].
  destruct (lookup_lt_is_Some_2 chunks t ltac:(lia)) as [c Hc].
  rewrite (take_S_r _ _ _ Hc), concat_app, length_app, IH by lia.
  simpl. rewrite app_nil_r, (Hfull t c Hc Ht). lia.
Qed.

(** X1. The frames handed to the classifier are, put end to end, a prefix of
    the decoded signal, and fewer than [sample_rate] samples (less than one
    second of audio) are left out at the end. *)
Theorem unclassified_tail_under_one_second (audio : list A) (b : Z) :
  0 < b ->
  exists frames,
    submitted_frames audio b = Some frames /\
    concat frames = take (length (concat frames)) audio /\
    Z.of_nat (length audio) - Z.of_nat (length (concat frames)) < sample_rate.
Proof.
  intros Hb.
  assert (Hparts : exists chunks,
            chunker audio b = Some chunks /\ concat chunks = audio /\
            (forall i c, chunks !! i = Some c -> (S i < length chunks)%nat ->
               Z.of_nat (length c) = b)).
  { unfold chunker, range.
    destruct (Z.eqb_spec b 0) as [?|_]; [lia|].
    destruct (Z.ltb_spec b 0) as [?|_]; [lia|].
    eexists; split; [reflexivity|]. rewrite Nat2Z.id. split.
    - apply (range_from_chunks audio b (length audio) 0 Hb). lia.
    - intros i c Hc Hi. rewrite length_map in Hi.
      apply (range_from_shape audio b (length audio) 0 Hb ltac:(lia) i c Hc). exact Hi. }
  destruct Hparts as (chunks & Hch & Hcat & Hshape).
  unfold submitted_frames. rewrite Hch. eexists; split; [reflexivity|].
  rewrite dispatch_take, Z.sub_0_r.
  set (n := Z.of_nat (length audio)).
  set (t := Z.to_nat (total_chunks n b)).
  assert (Hsplit : concat (take t chunks) ++ concat (drop t chunks) = audio).
  { rewrite <- concat_app, take_drop. exact Hcat. }
  split.
  { transitivity (take (length (concat (take t chunks)))
                    (concat (take t chunks) ++ concat (drop t chunks))).
    - rewrite take_app_length. reflexivity.
    - rewrite Hsplit. reflexivity. }
  destruct (le_lt_dec (length chunks) t) as [Hge|Hlt].
  { rewrite take_ge by exact Hge. rewrite Hcat. unfold sample_rate. lia. }
  assert (Hlen : length (concat (take t chunks)) = (t * Z.to_nat b)%nat).
  { apply concat_take_full; [|exact Hlt].
    intros i c Hc Hi. specialize (Hshape i c Hc Hi). lia. }
  rewrite Hlen.
  (* the number of chunks is the ceiling of [n / b] *)
  assert (Hn : 0 <= n) by (subst n; lia).
  pose proof (Z.div_mod n b ltac:(lia)) as Hdm.
  pose proof (Z.mod_pos_bound n b Hb) as Hmod.
  assert (Hq : 0 <= n / b) by (apply Z.div_pos; lia).
  assert (Hchunks : Z.of_nat (length chunks) = Z.max 0 ((n - 0 + b - 1) / b)).
  { unfold chunker, range in Hch.
    destruct (Z.eqb_spec b 0) as [?|_]; [lia|].
    destruct (Z.ltb_spec b 0) as [?|_]; [lia|].
    injection Hch as <-. rewrite length_map, Nat2Z.id.
    apply (range_from_length (length audio) b (length audio) 0 Hb). lia. }
  assert (Hceil : (n - 0 + b - 1) / b = n / b + (if 0 <? n mod b then 1 else 0)).
  { replace (n - 0 + b - 1) with ((n mod b + b - 1) + (n / b) * b) by lia.
    rewrite Z.div_add by lia.
    destruct (Z.ltb_spec 0 (n mod b)).
    - replace (n mod b + b - 1) with ((n mod b - 1) + 1 * b) by lia.
      rewrite Z.div_add by lia. rewrite Z.div_small by lia. lia.
    - rewrite Z.div_small by lia. lia. }
  subst t. unfold total_chunks in *.
  destruct (Z.ltb_spec 0 (n mod b)); destruct (Z.leb_spec sample_rate (n mod b));
    cbn [andb] in *; nia.
Qed.

End TailFacts.

Lemma unclassified_tail_under_one_second_witness :
  0 < 2 /\
  exists frames,
    Chunking.submitted_frames [1; 2; 3; 4; 5]%nat 2 = Some frames /\
    concat frames = take (length (concat frames)) [1; 2; 3; 4; 5]%nat /\
    Z.of_nat (length [1; 2; 3; 4; 5]%nat) - Z.of_nat (length (concat frames))
    < sample_rate.
Proof.
  split; [lia|]. apply (unclassified_tail_under_one_second [1; 2; 3; 4; 5]%nat 2). lia.
Defined.

(** ** Decoding in chunks *)

Section ChunkedReadFacts.
Import Decoder.

Lemma read_take_drop (stream : list Z) : forall n,
  0 <= n -> read n stream = (take (Z.to_nat n) stream, drop (Z.to_nat n) stream).
Proof.
  induction stream as [|b stream IH]; intros n Hn; simpl.
  - rewrite take_nil, drop_nil. reflexivity.
  - destruct (Z.leb_spec n 0).
    + replace (Z.to_nat n) with O by lia. reflexivity.
    + rewrite IH by lia. replace (Z.to_nat n) with (S (Z.to_nat (n - 1))) by lia.
      reflexivity.
Qed.

Lemma frombuffer_Some_inv (samples : list Q) : forall chunk,
  frombuffer chunk = Some samples ->
  length chunk = (2 * length samples)%nat.
Proof.
  induction samples as [|x samples IH]; intros chunk.
  - destruct chunk as [|lo [|hi rest]]; simpl; [reflexivity|discriminate|].
    destruct (frombuffer rest); discriminate.
  - destruct chunk as [|lo [|hi rest]]; simpl; [discriminate|discriminate|].
    destruct (frombuffer rest) as [s|] eqn:E; [|discriminate].
    intros [= _ <-]. rewrite (IH rest E). lia.
Qed.

Lemma frombuffer_app (samples : list Q) : forall chunk rest,
  frombuffer chunk = Some samples ->
  frombuffer (chunk ++ rest) = option_map (app samples) (frombuffer rest).
Proof.
  induction samples as [|x samples IH]; intros chunk rest.
  - destruct chunk as [|lo [|hi chunk]]; simpl; [|discriminate|].
    + intros _. destruct (frombuffer rest); reflexivity.
    + destruct (frombuffer chunk); discriminate.
  - destruct chunk as [|lo [|hi chunk]]; simpl; [discriminate|discriminate|].
    destruct (frombuffer chunk) as [s|] eqn:E; [|discriminate].
    intros [= <- <-]. rewrite (IH chunk rest E).
    destruct (frombuffer rest); reflexivity.
Qed.

Lemma frombuffer_parity (k : nat) : forall chunk,
  (length chunk = 2 * k -> exists samples,
     frombuffer chunk = Some samples /\ length samples = k)%nat /\
  (length chunk = 2 * k + 1 -> frombuffer chunk = None)%nat.
Proof.
  induction k as [|k IH]; intros chunk.
  - split; intros H.
    + destruct chunk; [|simpl in H; lia]. exists []. split; reflexivity.
    + destruct chunk as [|b [|? ?]]; simpl in H; try lia. reflexivity.
  - destruct chunk as [|lo [|hi rest]]; simpl; (split; intros H; try lia).
    + destruct (proj1 (IH rest) ltac:(lia)) as (s & -> & Hs).
      eexists; split; [reflexivity|]. simpl. lia.
    + rewrite (proj2 (IH rest) ltac:(lia)). reflexivity.
Qed.

Lemma frombuffer_take (stream : list Z) (samples : list Q) (n : nat) :
  frombuffer stream = Some samples ->
  frombuffer (take (2 * n) stream) = Some (take n samples) /\
  frombuffer (drop (2 * n) stream) = Some (drop n samples).
Proof.
  revert stream samples. induction n as [|n IH]; intros stream samples H.
  - simpl. rewrite !drop_0. auto.
  - destruct stream as [|lo [|hi rest]]; simpl in H.
    + injection H as <-. simpl. auto.
    + discriminate.
    + destruct (frombuffer rest) as [s|] eqn:E; [|discriminate].
      injection H as <-. replace (2 * S n)%nat with (S (S (2 * n))) by lia.
      cbn [take drop frombuffer]. destruct (IH rest s E) as [-> ->]. auto.
Qed.

(** A read asks for an even, positive number of bytes. *)
Lemma half_chunk :
  exists half : nat, Z.to_nat (chunk_size * 2) = (2 * half)%nat /\ (0 < half)%nat.
Proof. exists (Z.to_nat chunk_size). unfold chunk_size. lia. Qed.

(** The loop of [load_audio] on a stream of whole samples: the chunks it
    decodes, put end to end, are the samples of the whole stream. *)
Lemma read_loop_whole (fuel : nat) : forall stream samples buffer,
  (length stream < fuel)%nat ->
  frombuffer stream = Some samples ->
  exists buffer',
    read_loop fuel stream buffer = inr buffer' /\
    concat buffer' = concat buffer ++ samples.
Proof.
  induction fuel as [|fuel IH]; intros stream samples buffer Hf Hs; [lia|].
  cbn [read_loop]. rewrite read_take_drop by (unfold chunk_size; lia).
  destruct half_chunk as (half & Hn & Hpos). rewrite Hn.
  destruct (take (2 * half) stream) as [|b chunk] eqn:Et.
  - assert (stream = []) as ->.
    { destruct stream; [reflexivity|].
      destruct half; [lia|]. discriminate Et. }
    simpl in Hs. injection Hs as <-. exists buffer. rewrite app_nil_r. auto.
  - rewrite <- Et.
    destruct (frombuffer_take stream samples half Hs) as [H1 H2].
    rewrite H1.
    destruct (IH (drop (2 * half) stream) (drop half samples)
                (buffer ++ [take half samples])) as (buffer' & Hr & Hc).
    + rewrite length_drop. assert (length stream <> O); [|lia].
      destruct stream; [rewrite take_nil in Et; discriminate|simpl; lia].
    + exact H2.
    + exists buffer'. split; [exact Hr|]. rewrite Hc, concat_app. simpl.
      rewrite app_nil_r, <- app_assoc, take_drop. reflexivity.
Qed.

Lemma read_loop_odd (fuel : nat) : forall stream buffer,
  (length stream < fuel)%nat ->
  Nat.odd (length stream) = true ->
  read_loop fuel stream buffer = inl ValueError.
Proof.
  induction fuel as [|fuel IH]; intros stream buffer Hf Hodd; [lia|].
  cbn [read_loop]. rewrite read_take_drop by (unfold chunk_size; lia).
  destruct half_chunk as (half & Hn & Hpos). rewrite Hn.
  apply Nat.odd_spec in Hodd. destruct Hodd as [k Hk].
  destruct (take (2 * half) stream) as [|b chunk] eqn:Et.
  { destruct stream; [simpl in Hk; lia|]. destruct half; [lia|]. discriminate Et. }
  rewrite <- Et.
  destruct (le_lt_dec (length stream) (2 * half)) as [Hle|Hgt].
  - rewrite take_ge by exact Hle.
    rewrite (proj2 (frombuffer_parity k stream) Hk). reflexivity.
  - destruct (proj1 (frombuffer_parity half (take (2 * half) stream)))
      as (s & -> & _).
    { rewrite length_take. lia. }
    apply IH.
    + rewrite length_drop. lia.
    + rewrite length_drop. apply Nat.odd_spec. exists (k - half)%nat. lia.
Qed.

(** X2. What [load_audio] returns, by the number of bytes that the codec
    writes: nothing gives [RuntimeError]; an odd number of bytes gives the
    [ValueError] of [np.frombuffer]; an even number [2 * n > 0] gives the
    [n] samples of the stream in order, as one decoding of the whole stream
    would: reading in chunks loses and reorders nothing. *)
Theorem load_audio_by_length (stream : list Z) :
  (stream = [] -> load_audio stream = inl RuntimeError) /\
  (Nat.odd (length stream) = true -> load_audio stream = inl ValueError) /\
  (stream <> [] -> Nat.even (length stream) = true ->
   exists samples,
     frombuffer stream = Some samples /\
     load_audio stream = inr samples /\
     (2 * length samples = length stream)%nat).
Proof.
  split; [intros ->; reflexivity|]. split.
  - intros Hodd. unfold load_audio.
    rewrite (read_loop_odd (S (length stream)) stream [] ltac:(lia) Hodd). reflexivity.
  - intros Hne Heven. apply Nat.even_spec in Heven. destruct Heven as [k Hk].
    destruct (proj1 (frombuffer_parity k stream) Hk) as (samples & Hs & Hlen).
    exists samples. split; [exact Hs|]. split; [|lia].
    unfold load_audio.
    destruct (read_loop_whole (S (length stream)) stream samples [] ltac:(lia) Hs)
      as (buffer & -> & Hc).
    simpl in Hc. destruct buffer as [|c buffer].
    + simpl in Hc. subst samples. simpl in Hlen. destruct stream; [congruence|].
      simpl in Hk. lia.
    + rewrite Hc. reflexivity.
Qed.

Lemma int16_le_range (lo hi : Z) :
  0 <= lo < 256 -> 0 <= hi < 256 -> -32768 <= int16_le lo hi < 32768.
Proof.
  intros Hlo Hhi. unfold int16_le. destruct (Z.ltb_spec (lo + 256 * hi) 32768); lia.
Qed.

Lemma frombuffer_range (samples : list Q) : forall chunk,
  Forall (fun b => 0 <= b < 256) chunk ->
  frombuffer chunk = Some samples ->
  Forall (fun x => (-1 <= x)%Q /\ (x < 1)%Q) samples.
Proof.
  induction samples as [|x samples IH]; intros chunk Hb H; [constructor|].
  destruct chunk as [|lo [|hi rest]]; simpl in H; try discriminate.
  destruct (frombuffer rest) as [s|] eqn:E; [|discriminate].
  injection H as <- <-.
  inversion Hb as [|? ? Hlo Hb']; subst. inversion Hb' as [|? ? Hhi Hb'']; subst.
  constructor; [|apply (IH rest Hb'' E)].
  pose proof (int16_le_range lo hi Hlo Hhi) as Hr.
  unfold Qle, Qlt, Qdiv, Qmult, Qinv, inject_Z. simpl. lia.
Qed.

Lemma read_loop_range (fuel : nat) : forall stream buffer buffer',
  Forall (fun b => 0 <= b < 256) stream ->
  Forall (Forall (fun x => (-1 <= x)%Q /\ (x < 1)%Q)) buffer ->
  read_loop fuel stream buffer = inr buffer' ->
  Forall (Forall (fun x => (-1 <= x)%Q /\ (x < 1)%Q)) buffer'.
Proof.
  induction fuel as [|fuel IH]; intros stream buffer buffer' Hs Hb; cbn [read_loop].
  - intros [= <-]. exact Hb.
  - rewrite read_take_drop by (unfold chunk_size; lia).
    destruct (take (Z.to_nat (chunk_size * 2)) stream) as [|b chunk] eqn:Et.
    + intros [= <-]. exact Hb.
    + destruct (frombuffer (b :: chunk)) as [samples|] eqn:E; [|discriminate].
      apply IH.
      * apply Forall_drop. exact Hs.
      * apply Forall_app. split; [exact Hb|]. constructor; [|constructor].
        apply (frombuffer_range samples (b :: chunk)); [|exact E].
        rewrite <- Et. apply Forall_take. exact Hs.
Qed.

(** X3. Every sample that [load_audio] returns for a stream of bytes lies in
    [[-1, 1)]. *)
Theorem load_audio_normalized (stream : list Z) (audio : list Q) :
  Forall (fun b => 0 <= b < 256) stream ->
  load_audio stream = inr audio ->
  Forall (fun x => (-1 <= x)%Q /\ (x < 1)%Q) audio.
Proof.
  intros Hs. unfold load_audio.
  destruct (read_loop (S (length stream)) stream []) as [e|buffer] eqn:E;
    [discriminate|].
  destruct buffer as [|c buffer]; [discriminate|]. intros [= <-].
  apply read_loop_range in E; [|exact Hs|constructor].
  apply (proj2 (Forall_concat _ (c :: buffer))). exact E.
Qed.

End ChunkedReadFacts.

Lemma load_audio_by_length_witness :
  Nat.odd (length [0; 64; 7]) = true /\
  Decoder.load_audio [0; 64; 7] = inl ValueError /\
  [0; 64; 0; 128] <> [] /\ Nat.even (length [0; 64; 0; 128]) = true /\
  exists samples,
    Decoder.frombuffer [0; 64; 0; 128] = Some samples /\
    Decoder.load_audio [0; 64; 0; 128] = inr samples /\
    (2 * length samples = 4)%nat.
Proof.
  split; [reflexivity|].
  split; [apply (proj1 (proj2 (load_audio_by_length [0; 64; 7]))); reflexivity|].
  split; [discriminate|]. split; [reflexivity|].
  apply (proj2 (proj2 (load_audio_by_length [0; 64; 0; 128])));
    [discriminate|reflexivity].
Defined.

Lemma load_audio_normalized_witness :
  Forall (fun b => 0 <= b < 256) [0; 64; 0; 128] /\
  Forall (fun x => (-1 <= x)%Q /\ (x < 1)%Q) [(16384 # 32768)%Q; (-32768 # 32768)%Q].
Proof.
  assert (H : Forall (fun b => 0 <= b < 256) [0; 64; 0; 128]).
  { repeat constructor; lia. }
  split; [exact H|].
  apply (load_audio_normalized [0; 64; 0; 128] _ H). vm_compute. reflexivity.
Defined.

(** ** What the event extractor writes *)

Section OutputFacts.
Import Events.

(** The time written for the pooled window [i]. *)
Local Abbreviation stamp precision offset i :=
  (inject_Z (Z.of_nat i * precision) / 100 + offset)%Q.

Lemma print_results_passing scores precision offset threshold (top : list nat) :
  Forall (fun i => exists s, scores !! i = Some s /\
                             (threshold <=? Qtrunc (s * 100)) = true) top ->
  exists out,
    print_results scores precision offset top threshold = Some out /\
    map timestamp_seconds out = map (fun i => stamp precision offset i) top /\
    Forall2 (fun i d => exists s, scores !! i = Some s /\
                                  confidence_percent d = Qtrunc (s * 100)) top out.
Proof.
  induction 1 as [|i top (s & Hs & Hpass) _ (out & Hout & Hts & Hconf)]; simpl.
  - exists []. repeat split. constructor.
  - rewrite Hs, Hpass, Hout. eexists; split; [reflexivity|]. simpl. split.
    + rewrite Hts. reflexivity.
    + constructor; [|exact Hconf]. exists s. auto.
Qed.

Lemma print_timestamps_output m precision threshold focus_idx offset focus scores :
  column m focus_idx = Some focus ->
  subsample focus precision = Some scores ->
  exists out,
    print_timestamps m precision threshold focus_idx offset = Some out /\
    map timestamp_seconds out
    = map (fun i => stamp precision offset i)
          (filtered_indices scores (inject_Z threshold / 100)) /\
    Forall2 (fun i d => exists s, scores !! i = Some s /\
                                  confidence_percent d = Qtrunc (s * 100))
            (filtered_indices scores (inject_Z threshold / 100)) out.
Proof.
  intros Hc Hs. unfold print_timestamps. rewrite Hc, Hs. cbv zeta.
  pose proof (filtered_indices_pass scores threshold) as Hpass.
  destruct (filtered_indices scores (inject_Z threshold / 100)) as [|i rest] eqn:E.
  - exists []. repeat split. constructor.
  - apply print_results_passing. exact Hpass.
Qed.

Lemma print_results_above scores precision offset threshold : forall top out,
  print_results scores precision offset top threshold = Some out ->
  Forall (fun d => threshold <= confidence_percent d) out.
Proof.
  induction top as [|i top IH]; intros out; simpl.
  - intros [= <-]. constructor.
  - destruct (scores !! i) as [s|]; [|discriminate].
    destruct (Z.leb_spec threshold (Qtrunc (s * 100))) as [Hle|_].
    + destruct (print_results scores precision offset top threshold) as [out'|];
        [|discriminate].
      intros [= <-]. constructor; [exact Hle|]. apply IH. reflexivity.
    + intros [= <-]. constructor.
Qed.

Lemma stamp_increasing (precision : Z) (offset : Q) (i j : nat) :
  0 < precision -> (i < j)%nat ->
  (stamp precision offset i < stamp precision offset j)%Q.
Proof.
  intros Hp Hij. apply Qplus_lt_l.
  unfold Qlt, Qdiv, Qmult, Qinv, inject_Z. simpl. nia.
Qed.

Lemma filtered_indices_sorted scores t :
  StronglySorted lt (filtered_indices scores t).
Proof.
  unfold filtered_indices, sorted_confidence.
  generalize (length scores) as n. generalize O as a.
  intros a n. revert a. induction n as [|n IH]; intros a; simpl; [constructor|].
  destruct (match scores !! a with Some s => Qle_bool t s | None => false end).
  - constructor; [apply IH|].
    apply List.Forall_forall. intros j Hj. apply List.filter_In in Hj as [Hj _].
    apply List.in_seq in Hj. lia.
  - apply IH.
Qed.

Lemma stamps_sorted (precision : Z) (offset : Q) (idxs : list nat) :
  0 < precision -> StronglySorted lt idxs ->
  StronglySorted Qlt (map (fun i => stamp precision offset i) idxs).
Proof.
  intros Hp. induction 1 as [|i idxs _ IH Hall]; simpl; constructor; [exact IH|].
  apply List.Forall_forall. intros q Hq. apply List.in_map_iff in Hq as (j & <- & Hj).
  apply stamp_increasing; [exact Hp|].
  rewrite List.Forall_forall in Hall. apply Hall. exact Hj.
Qed.

Lemma subsample_precision focus precision scores :
  subsample focus precision = Some scores -> 0 < precision.
Proof.
  unfold subsample. destruct (Z.leb_spec precision 0); [discriminate|lia].
Qed.


Lemma print_timestamps_above m precision threshold focus_idx offset out :
  print_timestamps m precision threshold focus_idx offset = Some out ->
  Forall (fun d => threshold <= confidence_percent d) out.
Proof.
  unfold print_timestamps.
  destruct (column m focus_idx) as [focus|]; [|discriminate].
  destruct (subsample focus precision) as [scores|]; [|discriminate].
  cbv zeta.
  destruct (filtered_indices scores (inject_Z threshold / 100)) as [|i rest].
  - intros [= <-]. constructor.
  - apply print_results_above.
Qed.

(** X5. Every line that [print_timestamps] writes carries a percentage of at
    least [threshold], and the times of the lines are strictly
    increasing. *)
Theorem print_timestamps_ascending m precision threshold focus_idx offset out :
  print_timestamps m precision threshold focus_idx offset = Some out ->
  Forall (fun d => threshold <= confidence_percent d) out /\
  StronglySorted Qlt (map timestamp_seconds out).
Proof.
  intros H.
  destruct (column m focus_idx) as [focus|] eqn:Hc;
    [|unfold print_timestamps in H; rewrite Hc in H; discriminate].
  destruct (subsample focus precision) as [scores|] eqn:Hs;
    [|unfold print_timestamps in H; rewrite Hc, Hs in H; discriminate].
  destruct (print_timestamps_output m precision threshold focus_idx offset focus
              scores Hc Hs) as (out' & H' & Hts & Hconf).
  rewrite H in H'. injection H' as <-. split.
  - apply (print_timestamps_above _ _ _ _ _ _ H).
  - rewrite Hts. apply stamps_sorted.
    + apply (subsample_precision _ _ _ Hs).
    + apply filtered_indices_sorted.
Qed.

End OutputFacts.


Lemma print_timestamps_ascending_witness :
  let m := [[5 # 100]; [95 # 100]; [10 # 100]; [80 # 100]; [0 # 100]]%Q in
  let out := [Events.Detection (0 # 100) 95; Events.Detection (2 # 100) 80]%Q in
  Events.print_timestamps m 2 50 0 0 = Some out /\
  Forall (fun d => 50 <= Events.confidence_percent d) out /\
  StronglySorted Qlt (map Events.timestamp_seconds out).
Proof.
  intros m out.
  assert (H : Events.print_timestamps m 2 50 0 0 = Some out).
  { vm_compute. reflexivity. }
  split; [exact H|]. exact (print_timestamps_ascending m 2 50 0 0 out H).
Defined.

(** ** Formatting of the times *)

Section RenderFacts.
Import Render.

Lemma Qfloor_unique (x : Q) (z : Z) :
  (inject_Z z <= x)%Q -> (x < inject_Z (z + 1))%Q -> Qfloor x = z.
Proof.
  intros Hle Hlt. apply Z.le_antisymm.
  - assert (Qfloor x < z + 1); [|lia].
    rewrite Zlt_Qlt. eapply Qle_lt_trans; [apply Qfloor_le|exact Hlt].
  - rewrite <- (Qfloor_Z z). apply Qfloor_resp_le. exact Hle.
Qed.

Lemma Qtrunc_inject_Z (z : Z) : Events.Qtrunc (inject_Z z) = z.
Proof. unfold Events.Qtrunc. simpl. apply Z.quot_1_r. Qed.

Lemma Qtrunc_nonneg (x : Q) : (0 <= x)%Q -> Events.Qtrunc x = Qfloor x.
Proof.
  destruct x as [a d]. unfold Qle, Events.Qtrunc, Qfloor. simpl. intros H.
  apply Z.quot_div_nonneg; lia.
Qed.

Lemma divmod_bounds (x y : Q) :
  (0 < y)%Q ->
  let (q, r) := divmod x y in
  (0 <= r)%Q /\ (r < y)%Q /\ (x == q * y + r)%Q /\ q = inject_Z (Qfloor (x / y)).
Proof.
  intros Hy. unfold divmod.
  pose proof (Qfloor_le (x / y)) as Hle. pose proof (Qlt_floor (x / y)) as Hlt.
  set (q := Qfloor (x / y)) in *.
  assert (Hx : (x == (x / y) * y)%Q) by (field; intros E; rewrite E in Hy; discriminate).
  rewrite inject_Z_plus in Hlt.
  repeat split.
  - assert (inject_Z q * y <= (x / y) * y)%Q by (apply Qmult_le_compat_r; [exact Hle|apply Qlt_le_weak; exact Hy]).
    rewrite <- Hx in H. lra.
  - assert ((x / y) * y < (inject_Z q + inject_Z 1) * y)%Q by (apply Qmult_lt_compat_r; assumption).
    rewrite <- Hx in H. change (inject_Z 1) with 1%Q in H. lra.
  - ring.
Qed.

(** X6. The three fields of [seconds_to_hms] are the whole seconds of the time,
    split into hours, minutes below 60 and seconds below 60. *)
Theorem hms_fields_sum (seconds : Q) :
  exists h m s,
    hms_fields seconds = (h, m, s) /\
    h * 3600 + m * 60 + s = Qfloor seconds /\
    0 <= m < 60 /\ 0 <= s < 60.
Proof.
  unfold hms_fields.
  pose proof (divmod_bounds seconds (60 * 60) ltac:(reflexivity)) as H1.
  destruct (divmod seconds (60 * 60)) as [hours remainder].
  destruct H1 as (Hr0 & Hr1 & Hsum1 & ->).
  pose proof (divmod_bounds remainder 60 ltac:(reflexivity)) as H2.
  destruct (divmod remainder 60) as [minutes rest].
  destruct H2 as (Hs0 & Hs1 & Hsum2 & ->).
  set (h := Qfloor (seconds / (60 * 60))) in *.
  set (m := Qfloor (remainder / 60)) in *.
  rewrite !Qtrunc_inject_Z, (Qtrunc_nonneg rest Hs0).
  set (s := Qfloor rest).
  pose proof (Qfloor_le rest) as Hsle. pose proof (Qlt_floor rest) as Hslt.
  fold s in Hsle, Hslt. rewrite inject_Z_plus in Hslt.
  change (inject_Z 1) with 1%Q in Hslt.
  assert (Hm : 0 <= m < 60).
  { split.
    - assert (-1 < m); [|lia]. rewrite Zlt_Qlt. change (inject_Z (-1)) with (-1)%Q. lra.
    - rewrite Zlt_Qlt. change (inject_Z 60) with 60%Q. lra. }
  assert (Hs : 0 <= s < 60).
  { split.
    - assert (-1 < s); [|lia]. rewrite Zlt_Qlt. change (inject_Z (-1)) with (-1)%Q. lra.
    - rewrite Zlt_Qlt. change (inject_Z 60) with 60%Q. lra. }
  exists h, m, s. split; [reflexivity|]. split; [|auto].
  symmetry. apply Qfloor_unique.
  - rewrite !inject_Z_plus, !inject_Z_mult.
    change (inject_Z 3600) with 3600%Q. change (inject_Z 60) with 60%Q. lra.
  - rewrite !inject_Z_plus, !inject_Z_mult.
    change (inject_Z 3600) with 3600%Q. change (inject_Z 60) with 60%Q.
    change (inject_Z 1) with 1%Q. lra.
Qed.

End RenderFacts.

(** A time of 3725.5 seconds is written as one hour, two minutes and five
    seconds. *)
Example seconds_to_hms_example :
  Render.seconds_to_hms (7451 # 2) = "01:02:05"%string /\
  Render.line (Events.Detection (7451 # 2) 95) = "01:02:05 95%"%string.
Proof. split; vm_compute; reflexivity. Qed.

(** ** The identifier read from a URL *)

Section IdentifierFacts.
Import Str Resolver.
Open Scope string_scope.

Local Opaque Ascii.eqb.

Local Ltac eqb_cases H :=
  repeat match goal with
         | H' : (_ && _)%bool = true |- _ =>
             apply andb_prop in H'; destruct H' as [? H']
         | H' : Ascii.eqb _ _ = true |- _ =>
             apply Ascii.eqb_eq in H'; first [discriminate H'|subst]
         end.

Lemma string_app_assoc (a b c : string) : (a ++ b) ++ c = a ++ (b ++ c).
Proof.
  induction a as [|x a IH]; [reflexivity|].
  change (String x ((a ++ b) ++ c) = String x (a ++ (b ++ c))). rewrite IH. reflexivity.
Qed.

Lemma string_app_nil_r (a : string) : a ++ EmptyString = a.
Proof.
  induction a as [|x a IH]; [reflexivity|].
  change (String x (a ++ EmptyString) = String x a). rewrite IH. reflexivity.
Qed.

Lemma startswith_app (p s : string) : startswith p (p ++ s) = true.
Proof.
  induction p as [|c p IH]; [reflexivity|].
  change (String c p ++ s) with (String c (p ++ s)). cbn [startswith].
  rewrite Ascii.eqb_refl. exact IH.
Qed.

(** Without an occurrence of the separator, [split] returns the string as
    its only field. *)
Lemma split_from_no_sep (sep : string) : forall x field,
  contains sep x = false ->
  split_from sep 0 field x = [field ++ x].
Proof.
  induction x as [|c x IH]; intros field Hc.
  - simpl. rewrite string_app_nil_r. reflexivity.
  - rewrite contains_cons in Hc. apply orb_false_elim in Hc as [Hs Hc].
    cbn [split_from]. rewrite Hs. rewrite IH by exact Hc.
    rewrite string_app_assoc. reflexivity.
Qed.

Lemma split_from_nonempty (sep : string) : forall s skip field,
  split_from sep skip field s <> [].
Proof.
  induction s as [|c s IH]; intros skip field; cbn [split_from]; [discriminate|].
  destruct skip; [|apply IH].
  destruct (startswith sep (String c s)); [discriminate|apply IH].
Qed.

Lemma last_cons_nonempty {A} (a : A) (l : list A) d :
  l <> [] -> List.last (a :: l) d = List.last l d.
Proof. destruct l; [congruence|reflexivity]. Qed.

(** An occurrence of ["watch?v="] that begins before a later occurrence
    ends before it: the separator does not overlap itself. *)
Lemma watch_occurrence_inside (c : ascii) (p x : string) :
  startswith "watch?v=" (String c (p ++ "watch?v=" ++ x)) = true ->
  (7 <= String.length p)%nat.
Proof.
  intros H.
  simpl in H; eqb_cases H.
  do 7 (destruct p as [|? p];
        [simpl in H; eqb_cases H|simpl in H; eqb_cases H]).
  simpl. lia.
Qed.

Lemma split_last_watch (x : string) :
  contains "watch?v=" x = false ->
  forall p skip field,
    (skip <= String.length p)%nat ->
    List.last (split_from "watch?v=" skip field (p ++ "watch?v=" ++ x)) EmptyString = x.
Proof.
  intros Hx. induction p as [|c p IH]; intros skip field Hs.
  - assert (skip = 0)%nat as -> by (simpl in Hs; lia).
    change (EmptyString ++ "watch?v=" ++ x) with ("watch?v=" ++ x).
    pose proof (startswith_app "watch?v=" x) as Hsw.
    change ("watch?v=" ++ x) with (String "w" ("atch?v=" ++ x)) in *.
    cbn [split_from]. rewrite Hsw.
    change ("atch?v=" ++ x)
      with (String "a" (String "t" (String "c" (String "h" (String "?"
             (String "v" (String "=" x))))))).
    cbn [String.length Nat.sub split_from].
    rewrite split_from_no_sep by exact Hx. reflexivity.
  - change (String c p ++ "watch?v=" ++ x) with (String c (p ++ "watch?v=" ++ x)).
    cbn [split_from]. destruct skip as [|skip].
    + destruct (startswith "watch?v=" (String c (p ++ "watch?v=" ++ x))) eqn:E.
      * apply watch_occurrence_inside in E.
        rewrite last_cons_nonempty by apply split_from_nonempty.
        apply IH. cbn [String.length Nat.sub]. exact E.
      * apply IH. lia.
    + apply IH. simpl in Hs. lia.
Qed.

(** X7. The key of the pre-check dictionaries: for a URL that holds
    [watch?v=] it is what follows the last [watch?v=]; a URL that holds
    no [watch?v=] (a [youtu.be] link, for one) is its own key, whole. *)
Theorem video_id_of_watch_url (x : string) :
  contains "watch?v=" x = false ->
  video_id_of x = x /\
  forall p, video_id_of (p ++ "watch?v=" ++ x) = x.
Proof.
  intros Hx. split.
  - unfold video_id_of, split_last, split.
    rewrite split_from_no_sep by exact Hx. reflexivity.
  - intros p. unfold video_id_of, split_last, split.
    apply split_last_watch; [exact Hx|lia].
Qed.

Local Transparent Ascii.eqb.

End IdentifierFacts.

Lemma video_id_of_watch_url_witness :
  Resolver.video_id_of "dQw4w9WgXcQ" = "dQw4w9WgXcQ"%string /\
  forall p, Resolver.video_id_of (p ++ "watch?v=" ++ "dQw4w9WgXcQ")%string
            = "dQw4w9WgXcQ"%string.
Proof.
  apply (video_id_of_watch_url "dQw4w9WgXcQ"). vm_compute. reflexivity.
Defined.

(** ** Ledger look-ups *)

Section LedgerFacts.
Import Ledger.

Lemma mark_fst code entry :
  fst (mark code entry) = true <-> fst entry = true \/ code = "60"%string.
Proof.
  unfold mark. destruct (String.eqb_spec code "60") as [->|N60]; simpl.
  - tauto.
  - destruct (String.eqb_spec code "58") as [->|N58]; simpl; tauto.
Qed.

Lemma mark_snd code entry :
  snd (mark code entry) = true <-> snd entry = true \/ code = "58"%string.
Proof.
  unfold mark. destruct (String.eqb_spec code "60") as [->|N60]; simpl.
  - split; [auto|]. intros [H|H]; [exact H|discriminate].
  - destruct (String.eqb_spec code "58") as [->|N58]; simpl; tauto.
Qed.

(** The entry of [k] after one more row. *)
Lemma log_step_lookup url_list (m : gmap string (bool * bool)) r k :
  log_step url_list m r !! k
  = if bool_decide (row_url r ∈ url_list /\ Resolver.video_id_of (row_url r) = k)
    then Some (mark (row_code r) (default (false, false) (m !! k)))
    else m !! k.
Proof.
  unfold log_step. case_bool_decide as Hin.
  - cbv zeta. destruct (decide (Resolver.video_id_of (row_url r) = k)) as [<-|N].
    + rewrite bool_decide_eq_true_2 by auto. apply lookup_insert_eq.
    + rewrite bool_decide_eq_false_2 by tauto. apply lookup_insert_ne. exact N.
  - rewrite bool_decide_eq_false_2 by tauto. reflexivity.
Qed.

Lemma precheck_log_snoc url_list rows r :
  precheck_log_for_urls url_list (rows ++ [r])
  = log_step url_list (precheck_log_for_urls url_list rows) r.
Proof. unfold precheck_log_for_urls. rewrite fold_left_app. reflexivity. Qed.

Lemma precheck_log_lookup url_list rows k :
  let log := precheck_log_for_urls url_list rows in
  let hit r := r ∈ rows /\ row_url r ∈ url_list /\
               Resolver.video_id_of (row_url r) = k in
  (is_Some (log !! k) <-> exists r, hit r) /\
  (fst (default (false, false) (log !! k)) = true <->
   exists r, hit r /\ row_code r = "60"%string) /\
  (snd (default (false, false) (log !! k)) = true <->
   exists r, hit r /\ row_code r = "58"%string).
Proof.
  cbv zeta. induction rows as [|r rows IH] using rev_ind.
  - unfold precheck_log_for_urls. cbn [fold_left]. rewrite lookup_empty.
    cbn. repeat split; try (intros [? ?]; discriminate); try discriminate;
      first [intros (r & (Hr & _) & _)|intros (r & Hr & _)];
      apply elem_of_nil in Hr; contradiction.
  - destruct IH as (I1 & I2 & I3).
    rewrite precheck_log_snoc, log_step_lookup.
    set (log := precheck_log_for_urls url_list rows) in *.
    case_bool_decide as Hhit.
    + change (default (false, false) (Some ?x)) with x.
      rewrite mark_fst, mark_snd, I2, I3. repeat split.
      * intros _. exists r. split; [apply elem_of_app; right; left|exact Hhit].
      * intros _. eauto.
      * intros [(r0 & (Hr0 & Hh) & Hc)|Hc].
        -- exists r0. repeat split; [apply elem_of_app; left; exact Hr0|apply Hh|apply Hh|exact Hc].
        -- exists r. repeat split; [apply elem_of_app; right; left|apply Hhit|apply Hhit|exact Hc].
      * intros (r0 & (Hr0 & Hh) & Hc). apply elem_of_app in Hr0 as [Hr0|Hr0].
        -- left. exists r0. auto.
        -- apply list_elem_of_singleton in Hr0 as ->. auto.
      * intros [(r0 & (Hr0 & Hh) & Hc)|Hc].
        -- exists r0. repeat split; [apply elem_of_app; left; exact Hr0|apply Hh|apply Hh|exact Hc].
        -- exists r. repeat split; [apply elem_of_app; right; left|apply Hhit|apply Hhit|exact Hc].
      * intros (r0 & (Hr0 & Hh) & Hc). apply elem_of_app in Hr0 as [Hr0|Hr0].
        -- left. exists r0. auto.
        -- apply list_elem_of_singleton in Hr0 as ->. auto.
    + rewrite I1, I2, I3. repeat split.
      * intros (r0 & Hr0 & Hh). exists r0. split; [apply elem_of_app; left; exact Hr0|exact Hh].
      * intros (r0 & Hr0 & Hh). apply elem_of_app in Hr0 as [Hr0|Hr0].
        -- exists r0. auto.
        -- apply list_elem_of_singleton in Hr0 as ->. tauto.
      * intros (r0 & (Hr0 & Hh) & Hc). exists r0.
        repeat split; [apply elem_of_app; left; exact Hr0|apply Hh|apply Hh|exact Hc].
      * intros (r0 & (Hr0 & Hh) & Hc). apply elem_of_app in Hr0 as [Hr0|Hr0].
        -- exists r0. auto.
        -- apply list_elem_of_singleton in Hr0 as ->. tauto.
      * intros (r0 & (Hr0 & Hh) & Hc). exists r0.
        repeat split; [apply elem_of_app; left; exact Hr0|apply Hh|apply Hh|exact Hc].
      * intros (r0 & (Hr0 & Hh) & Hc). apply elem_of_app in Hr0 as [Hr0|Hr0].
        -- exists r0. auto.
        -- apply list_elem_of_singleton in Hr0 as ->. tauto.
Qed.

(** X8. [precheck_log_for_urls] has an entry for an identifier exactly when
    some row of the ledger names a URL of the batch with that identifier;
    its [farts] flag is set exactly when such a row has code 60, its
    [burps] flag exactly when such a row has code 58. *)
Theorem precheck_log_entry url_list rows k :
  let log := precheck_log_for_urls url_list rows in
  let hit r := r ∈ rows /\ row_url r ∈ url_list /\
               Resolver.video_id_of (row_url r) = k in
  (is_Some (log !! k) <-> exists r, hit r) /\
  (fst (default (false, false) (log !! k)) = true <->
   exists r, hit r /\ row_code r = "60"%string) /\
  (snd (default (false, false) (log !! k)) = true <->
   exists r, hit r /\ row_code r = "58"%string).
Proof. apply precheck_log_lookup. Qed.

Lemma check_log_fold youtube_url (rows : list row) : forall acc,
  let res := fold_left (fun acc r =>
                          if String.eqb (row_url r) youtube_url
                          then mark (row_code r) acc else acc) rows acc in
  (fst res = true <->
   fst acc = true \/
   exists r, r ∈ rows /\ row_url r = youtube_url /\ row_code r = "60"%string) /\
  (snd res = true <->
   snd acc = true \/
   exists r, r ∈ rows /\ row_url r = youtube_url /\ row_code r = "58"%string).
Proof.
  induction rows as [|r rows IH]; intros acc; cbn [fold_left].
  - cbv zeta. split; (split; [auto|]); intros [H|(r & Hr & _)]; try exact H;
      apply elem_of_nil in Hr; contradiction.
  - match goal with |- context [fold_left _ rows ?a] => specialize (IH a) end.
    cbv zeta in IH |- *. destruct IH as (I1 & I2). rewrite I1, I2. clear I1 I2.
    destruct (String.eqb_spec (row_url r) youtube_url) as [E|N].
    + rewrite mark_fst, mark_snd. repeat split.
      * intros [[H|H]|(r' & Hr' & Hu & Hc)]; [auto| |].
        -- right. exists r. repeat split; [left|exact E|exact H].
        -- right. exists r'. repeat split; [right; exact Hr'|exact Hu|exact Hc].
      * intros [H|(r' & Hr' & Hu & Hc)]; [auto|].
        apply elem_of_cons in Hr' as [->|Hr']; [left; right; exact Hc|].
        right. exists r'. auto.
      * intros [[H|H]|(r' & Hr' & Hu & Hc)]; [auto| |].
        -- right. exists r. repeat split; [left|exact E|exact H].
        -- right. exists r'. repeat split; [right; exact Hr'|exact Hu|exact Hc].
      * intros [H|(r' & Hr' & Hu & Hc)]; [auto|].
        apply elem_of_cons in Hr' as [->|Hr']; [left; right; exact Hc|].
        right. exists r'. auto.
    + repeat split.
      * intros [H|(r' & Hr' & Hu & Hc)]; [auto|]. right. exists r'.
        repeat split; [right; exact Hr'|exact Hu|exact Hc].
      * intros [H|(r' & Hr' & Hu & Hc)]; [auto|].
        apply elem_of_cons in Hr' as [->|Hr']; [contradiction|]. right. eauto.
      * intros [H|(r' & Hr' & Hu & Hc)]; [auto|]. right. exists r'.
        repeat split; [right; exact Hr'|exact Hu|exact Hc].
      * intros [H|(r' & Hr' & Hu & Hc)]; [auto|].
        apply elem_of_cons in Hr' as [->|Hr']; [contradiction|]. right. eauto.
Qed.

(** [check_log] reports a class as processed exactly when the ledger has a
    row with this very URL and the code of the class. *)
Lemma check_log_flags youtube_url rows :
  (fst (check_log youtube_url rows) = true <->
   exists r, r ∈ rows /\ row_url r = youtube_url /\ row_code r = "60"%string) /\
  (snd (check_log youtube_url rows) = true <->
   exists r, r ∈ rows /\ row_url r = youtube_url /\ row_code r = "58"%string).
Proof.
  unfold check_log.
  pose proof (check_log_fold youtube_url rows (false, false)) as H. cbv zeta in H.
  destruct H as (H1 & H2). rewrite H1, H2. cbn [fst snd].
  split; (split; [intros [H|H]; [discriminate|exact H]|auto]).
Qed.

(** X9. For a URL of the batch, what the look-up of a single URL ([check_log])
    reports as processed is reported by the look-up of the batch
    ([precheck_log_for_urls], under the identifier of the URL) too. *)
Theorem batch_lookup_covers_single url_list rows url :
  url ∈ url_list ->
  let single := check_log url rows in
  let entry := default (false, false)
                 (precheck_log_for_urls url_list rows !! Resolver.video_id_of url) in
  (fst single = true -> fst entry = true) /\
  (snd single = true -> snd entry = true).
Proof.
  intros Hin. cbv zeta.
  destruct (check_log_flags url rows) as (C1 & C2).
  destruct (precheck_log_lookup url_list rows (Resolver.video_id_of url))
    as (_ & P1 & P2). cbv zeta in P1, P2.
  split; intros H.
  - apply P1. apply C1 in H as (r & Hr & Hu & Hc). exists r. subst url. auto.
  - apply P2. apply C2 in H as (r & Hr & Hu & Hc). exists r. subst url. auto.
Qed.

End LedgerFacts.

Lemma batch_lookup_covers_single_witness :
  Sample.url_a ∈ [Sample.url_a; Sample.url_b] /\
  fst (Ledger.check_log Sample.url_a [Sample.row_60 Sample.url_a "Title A"]) = true /\
  fst (default (false, false)
         (Ledger.precheck_log_for_urls [Sample.url_a; Sample.url_b]
            [Sample.row_60 Sample.url_a "Title A"]
          !! Resolver.video_id_of Sample.url_a)) = true.
Proof.
  assert (Hin : Sample.url_a ∈ [Sample.url_a; Sample.url_b]) by (left).
  assert (Hs : fst (Ledger.check_log Sample.url_a
                      [Sample.row_60 Sample.url_a "Title A"]) = true).
  { vm_compute. reflexivity. }
  split; [exact Hin|]. split; [exact Hs|].
  exact (proj1 (batch_lookup_covers_single [Sample.url_a; Sample.url_b]
                  [Sample.row_60 Sample.url_a "Title A"] Sample.url_a Hin) Hs).
Defined.

(** ** The scan of the working directory *)

Section AssetFacts.
Import AssetIndex.

Lemma find_file_Some video_id ext listing file :
  find_file video_id ext listing = Some file ->
  file ∈ listing /\ Str.contains video_id file = true /\ Str.endswith ext file = true.
Proof.
  unfold find_file. intros H. apply find_some in H as [Hin Hb].
  apply andb_true_iff in Hb as [Hc He].
  split; [apply list_elem_of_In; exact Hin|auto].
Qed.

Lemma find_file_None video_id ext listing file :
  find_file video_id ext listing = None ->
  file ∈ listing ->
  Str.contains video_id file && Str.endswith ext file = false.
Proof.
  unfold find_file. intros H Hin.
  apply (find_none _ _ H file). apply list_elem_of_In. exact Hin.
Qed.

Lemma first_match_Some video_id listing file : forall exts,
  first_match video_id exts listing = Some file ->
  file ∈ listing /\ Str.contains video_id file = true /\
  exists ext, ext ∈ exts /\ Str.endswith ext file = true.
Proof.
  induction exts as [|ext exts IH]; simpl; [discriminate|].
  destruct (find_file video_id ext listing) as [f|] eqn:E.
  - intros [= ->]. apply find_file_Some in E as (Hin & Hc & He).
    repeat split; [exact Hin|exact Hc|]. exists ext. split; [left|exact He].
  - intros H. destruct (IH H) as (Hin & Hc & ext' & He' & Hend).
    repeat split; [exact Hin|exact Hc|]. exists ext'. split; [right; exact He'|exact Hend].
Qed.

Lemma first_match_None video_id listing : forall exts,
  first_match video_id exts listing = None ->
  forall file ext, file ∈ listing -> ext ∈ exts ->
    Str.contains video_id file && Str.endswith ext file = false.
Proof.
  induction exts as [|ext exts IH]; simpl; intros H file ext' Hin He.
  - inversion He.
  - destruct (find_file video_id ext listing) as [f|] eqn:E; [discriminate|].
    apply elem_of_cons in He as [-> | He].
    + eapply find_file_None; eauto.
    + eapply IH; eauto.
Qed.

(** The scan for one identifier leaves the other entries as they were,
    and sets its own entry to the first match when there is one. *)
Lemma scan_extensions_other vid listing k : forall exts (m : gmap string string),
  vid <> k -> scan_extensions vid exts listing m !! k = m !! k.
Proof.
  induction exts as [|ext exts IH]; intros m Hk; simpl; [reflexivity|].
  destruct (find_file vid ext listing) as [f|].
  - case_bool_decide.
    + apply lookup_insert_ne. exact Hk.
    + rewrite IH by exact Hk. apply lookup_insert_ne. exact Hk.
  - case_bool_decide; [reflexivity|]. apply IH. exact Hk.
Qed.

Lemma scan_extensions_fresh vid listing : forall exts (m : gmap string string),
  m !! vid = None ->
  scan_extensions vid exts listing m !! vid = first_match vid exts listing.
Proof.
  induction exts as [|ext exts IH]; intros m Hm; simpl; [exact Hm|].
  destruct (find_file vid ext listing) as [f|].
  - rewrite bool_decide_eq_true_2 by (rewrite lookup_insert_eq; eauto).
    apply lookup_insert_eq.
  - rewrite bool_decide_eq_false_2 by (rewrite Hm; intros [? ?]; discriminate).
    apply IH. exact Hm.
Qed.

Lemma scan_extensions_again vid listing : forall exts (m : gmap string string),
  exts <> [] ->
  is_Some (m !! vid) ->
  m !! vid = first_match vid exts listing ->
  scan_extensions vid exts listing m !! vid = first_match vid exts listing.
Proof.
  intros [|ext exts] m Hne Hs Hm; [congruence|]. simpl in *.
  destruct (find_file vid ext listing) as [f|].
  - rewrite bool_decide_eq_true_2 by (rewrite lookup_insert_eq; eauto).
    apply lookup_insert_eq.
  - rewrite bool_decide_eq_true_2 by exact Hs. exact Hm.
Qed.

Lemma precheck_files_snoc url_list url listing :
  precheck_files_for_urls (url_list ++ [url]) listing
  = scan_extensions (Resolver.video_id_of url) possible_extensions listing
      (precheck_files_for_urls url_list listing).
Proof. unfold precheck_files_for_urls. rewrite fold_left_app. reflexivity. Qed.

Lemma precheck_files_lookup listing k : forall url_list,
  precheck_files_for_urls url_list listing !! k
  = if bool_decide (k ∈ map Resolver.video_id_of url_list)
    then first_match k possible_extensions listing else None.
Proof.
  induction url_list as [|url url_list IH] using rev_ind.
  - reflexivity.
  - rewrite precheck_files_snoc, map_app. cbn [map].
    destruct (decide (Resolver.video_id_of url = k)) as [<- | Hk].
    + rewrite (bool_decide_eq_true_2 (_ ∈ (_ ++ _)%list))
        by (apply elem_of_app; right; left).
      revert IH. case_bool_decide as Hin; intros IH.
      * destruct (first_match (Resolver.video_id_of url) possible_extensions listing)
          as [f|] eqn:E.
        -- rewrite <- E. apply scan_extensions_again;
             [discriminate|rewrite IH; eauto|rewrite IH; symmetry; exact E].
        -- rewrite <- E. apply scan_extensions_fresh. exact IH.
      * apply scan_extensions_fresh. exact IH.
    + rewrite scan_extensions_other by exact Hk. rewrite IH.
      assert (Hb : bool_decide (k ∈ map Resolver.video_id_of url_list)
                   = bool_decide (k ∈ (map Resolver.video_id_of url_list
                                        ++ [Resolver.video_id_of url])%list)).
      { apply bool_decide_ext. rewrite elem_of_app, list_elem_of_singleton.
        split; [auto|]. intros [H | H]; [exact H|congruence]. }
      rewrite Hb. reflexivity.
Qed.

(** X10. The batch scan and the scan of [download_audio] for a single item
    find the same file: for a URL of the batch whose identifier is not
    empty, the entry of [precheck_files_for_urls] under the identifier is
    the result of the single scan (no entry where the single scan finds
    no file). *)
Theorem batch_scan_agrees_with_single url_list listing url :
  url ∈ url_list ->
  Resolver.video_id_of url <> EmptyString ->
  precheck_files_for_urls url_list listing !! Resolver.video_id_of url
  = scan_single (Resolver.video_id_of url) listing.
Proof.
  intros Hin Hne. rewrite precheck_files_lookup.
  rewrite bool_decide_eq_true_2
    by (apply list_elem_of_fmap; exists url; split; [reflexivity|exact Hin]).
  unfold scan_single.
  destruct (String.eqb_spec (Resolver.video_id_of url) EmptyString) as [E|_];
    [congruence|reflexivity].
Qed.

(** X11. What the single scan returns: a file of the directory whose name
    holds the identifier and ends with one of the four recognised
    extensions; it returns none only for the empty identifier or when the
    directory holds no such file. *)
Theorem scan_single_result video_id listing :
  match scan_single video_id listing with
  | Some file =>
      video_id <> EmptyString /\ file ∈ listing /\
      Str.contains video_id file = true /\
      exists ext, ext ∈ possible_extensions /\ Str.endswith ext file = true
  | None =>
      video_id = EmptyString \/
      forall file ext, file ∈ listing -> ext ∈ possible_extensions ->
        Str.contains video_id file && Str.endswith ext file = false
  end.
Proof.
  unfold scan_single.
  destruct (String.eqb_spec video_id EmptyString) as [E|E]; [left; exact E|].
  destruct (first_match video_id possible_extensions listing) as [f|] eqn:F.
  - split; [exact E|]. eapply first_match_Some. exact F.
  - right. apply first_match_None. exact F.
Qed.

(** X12. The order of the extensions decides before the order of the
    directory: a file ending in [.opus] that holds the identifier is
    preferred to every file with another extension, wherever it stands in
    the listing. *)
Theorem scan_single_prefers_opus video_id listing file :
  video_id <> EmptyString ->
  file ∈ listing ->
  Str.contains video_id file = true ->
  Str.endswith ".opus" file = true ->
  exists found, scan_single video_id listing = Some found /\
                Str.endswith ".opus" found = true.
Proof.
  intros Hne Hin Hc He. unfold scan_single.
  destruct (String.eqb_spec video_id EmptyString) as [E|_]; [congruence|].
  unfold possible_extensions. cbn [first_match].
  destruct (find_file video_id ".opus" listing) as [f|] eqn:F.
  - exists f. split; [reflexivity|]. apply find_file_Some in F. tauto.
  - pose proof (find_file_None _ _ _ _ F Hin) as H. rewrite Hc, He in H. discriminate.
Qed.

End AssetFacts.

Lemma batch_scan_agrees_with_single_witness :
  AssetIndex.precheck_files_for_urls [Sample.url_a; Sample.url_b]
    [Sample.file_b; Sample.file_a] !! Resolver.video_id_of Sample.url_a
  = AssetIndex.scan_single (Resolver.video_id_of Sample.url_a)
      [Sample.file_b; Sample.file_a].
Proof.
  apply (batch_scan_agrees_with_single [Sample.url_a; Sample.url_b]
           [Sample.file_b; Sample.file_a] Sample.url_a).
  - left.
  - vm_compute. discriminate.
Defined.

Lemma scan_single_prefers_opus_witness :
  exists found,
    AssetIndex.scan_single "aaa" ["A [aaa].mp3"; "A [aaa].opus"]%string = Some found /\
    Str.endswith ".opus" found = true.
Proof.
  apply (scan_single_prefers_opus "aaa" ["A [aaa].mp3"; "A [aaa].opus"]%string
           "A [aaa].opus"%string).
  - discriminate.
  - right; left.
  - vm_compute; reflexivity.
  - vm_compute; reflexivity.
Defined.

(** ** The batch decision block as a whole *)

Section SelectionFacts.
Import Console Reconcile.

Local Abbreviation logged urls rows u :=
  (bool_decide (is_Some (Ledger.precheck_log_for_urls urls rows
                           !! Resolver.video_id_of u))).
Local Abbreviation cached urls listing u :=
  (bool_decide (is_Some (AssetIndex.precheck_files_for_urls urls listing
                           !! Resolver.video_id_of u))).

Lemma precheck_log_size urls rows :
  (size (Ledger.precheck_log_for_urls urls rows) <= length urls)%nat.
Proof.
  rewrite <- (length_map Resolver.video_id_of urls).
  apply keys_size. intros k Hk.
  apply precheck_log_keys in Hk as (u & Hu & <-).
  apply list_elem_of_fmap. eauto.
Qed.

Lemma precheck_files_size urls listing :
  (size (AssetIndex.precheck_files_for_urls urls listing) <= length urls)%nat.
Proof.
  rewrite <- (length_map Resolver.video_id_of urls).
  apply keys_size. intros k Hk.
  apply precheck_files_keys in Hk as (u & Hu & <-).
  apply list_elem_of_fmap. eauto.
Qed.

Lemma selects_none_logged cached n : selects PNone true cached n = false.
Proof. destruct cached; reflexivity. Qed.

Lemma filter_all {A} (f : A -> bool) (l : list A) :
  (forall x, x ∈ l -> f x = true) -> List.filter f l = l.
Proof.
  induction l as [|x l IH]; intros H; simpl; [reflexivity|].
  rewrite (H x) by left. f_equal. apply IH. intros y Hy. apply H. right. exact Hy.
Qed.

Lemma filter_loop_aliased_Some p log files :
  forall fuel i urls r,
    (forall u, u ∈ urls -> selects_url p log files u = false) ->
    filter_loop_aliased fuel p log files i urls = Some r -> r = urls.
Proof.
  induction fuel as [|fuel IH]; intros i urls r Hno; simpl; [discriminate|].
  destruct (urls !! i) as [u|] eqn:E; [|congruence].
  rewrite (Hno u) by (eapply list_elem_of_lookup_2; eauto).
  apply IH. exact Hno.
Qed.

Lemma aliased_none_selected urls rows listing c p c' :
  decide_batch urls (Ledger.precheck_log_for_urls urls rows)
    (AssetIndex.precheck_files_for_urls urls listing) c = (Continue p true, c') ->
  p = PNone /\
  forall u, u ∈ urls ->
    selects_url p (Ledger.precheck_log_for_urls urls rows)
      (AssetIndex.precheck_files_for_urls urls listing) u = false.
Proof.
  intros H. apply decide_batch_aliased in H as [-> Hs]. split; [reflexivity|].
  intros u Hu. apply all_logged_of_size in Hs as [_ Hall].
  unfold selects_url. rewrite (bool_decide_eq_true_2 _ (Hall u Hu)).
  apply selects_none_logged.
Qed.

(** X13. The loop that appends to the list it iterates over always ends: the
    decision block, given more steps than the batch has URLs, never runs
    out of them. *)
Theorem reconcile_never_diverges fuel urls rows listing c :
  (length urls < fuel)%nat ->
  fst (reconcile fuel urls rows listing c) <> Diverges.
Proof.
  intros Hfuel. unfold reconcile, reconcile_with.
  destruct (decide_batch urls _ _ c) as [[code|p [|]|] c'] eqn:D; cbn [fst];
    try discriminate.
  - apply aliased_none_selected in D as [-> Hno].
    rewrite (filter_loop_aliased_none _ _ _ _ Hno) by lia. discriminate.
Qed.

Lemma logged_missing_pos (log : gmap string (bool * bool))
    (files : gmap string string) k :
  is_Some (log !! k) -> files !! k = None ->
  (0 <? logged_but_missing_files log files)%nat = true.
Proof.
  intros [v Hv] Hf. apply Nat.ltb_lt. unfold logged_but_missing_files.
  assert (H : filter (fun kv : string * (bool * bool) => files !! kv.1 = None) log
              !! k = Some v)
    by (apply map_lookup_filter_Some; split; [exact Hv|exact Hf]).
  destruct (size (filter (fun kv : string * (bool * bool) => files !! kv.1 = None) log))
    eqn:E; [|lia].
  apply map_size_empty_iff in E. rewrite E in H. rewrite lookup_empty in H.
  discriminate.
Qed.

Lemma decide_batch_none urls rows listing c c' :
  decide_batch urls (Ledger.precheck_log_for_urls urls rows)
    (AssetIndex.precheck_files_for_urls urls listing) c = (Continue PNone false, c') ->
  Ledger.precheck_log_for_urls urls rows = ∅ /\ c' = c /\
  fully_satisfied urls (Ledger.precheck_log_for_urls urls rows)
    (AssetIndex.precheck_files_for_urls urls listing) = false.
Proof.
  unfold decide_batch.
  destruct (fully_satisfied urls _ _) eqn:F.
  { destruct (input AskRerunAll c) as [[a c1]|]; [|discriminate].
    destruct (String.eqb a "y"); discriminate. }
  destruct (inconsistent urls _ _) eqn:I.
  { destruct (input AskBatchPolicy c) as [[a c1]|]; [|discriminate].
    repeat case_match; discriminate. }
  intros [= <-]. split; [|auto].
  apply map_size_empty_iff.
  unfold inconsistent in I. apply andb_false_iff in I as [I | I].
  - apply Nat.ltb_ge in I. lia.
  - apply orb_false_iff in I as [_ I]. apply negb_false_iff, Z.eqb_eq in I.
    unfold videos_to_process in I.
    pose proof (precheck_log_size urls rows) as Hle.
    pose proof (precheck_files_size urls listing) as Hle'.
    destruct (decide (length urls = 0)%nat) as [Z0 | NZ]; [|lia].
    exfalso. unfold fully_satisfied in F.
    apply andb_false_iff in F as [F | F]; apply Nat.eqb_neq in F; lia.
Qed.

(** X14. What the decision block selects, by the policy it ends with: the
    whole batch when no policy was chosen or the answer was A; for the
    answer N the URLs without a ledger entry; for the answer Y the
    URLs that have a ledger entry or a cached file but not both.  The
    selection keeps the order of the batch. *)
Theorem selection_by_policy fuel urls rows listing c selected p c' :
  reconcile fuel urls rows listing c = (Selected selected p, c') ->
  selected =
    match p with
    | PNone | PAll => urls
    | PFalse => List.filter (fun u => negb (logged urls rows u)) urls
    | PTrue => List.filter (fun u => xorb (logged urls rows u) (cached urls listing u))
                           urls
    end.
Proof.
  unfold reconcile, reconcile_with.
  destruct (decide_batch urls _ _ c) as [[code|q [|]|] c1] eqn:D; try discriminate.
  - apply aliased_none_selected in D as [-> Hno].
    destruct (filter_loop_aliased fuel PNone _ _ 0 urls) as [r|] eqn:E; [|discriminate].
    intros [= <- <- <-]. eapply filter_loop_aliased_Some; eauto.
  - intros [= <- <- <-]. rewrite filter_loop_filter. destruct q.
    + apply decide_batch_none in D as (E & _ & _).
      apply filter_all. intros u _. unfold selects_url. rewrite E, lookup_empty.
      rewrite (bool_decide_eq_false_2 (is_Some None)) by (intros [? ?]; discriminate).
      apply selects_unlogged.
    + apply filter_ext. intros u. unfold selects_url, selects. cbn [is_all is_true is_falsy].
      cbn [andb]. destruct (logged urls rows u), (cached urls listing u); reflexivity.
    + apply filter_ext. intros u. unfold selects_url, selects. cbn [is_all is_true is_falsy].
      cbn [andb].
      destruct (logged urls rows u) eqn:L, (cached urls listing u) eqn:C;
        cbn [andb negb xorb]; try reflexivity.
      apply bool_decide_eq_true in L. apply bool_decide_eq_false in C.
      rewrite (logged_missing_pos _ _ _ L); [reflexivity|].
      destruct (AssetIndex.precheck_files_for_urls urls listing
                  !! Resolver.video_id_of u) eqn:F; [|reflexivity].
      exfalso. apply C. eauto.
    + apply filter_all. intros u _. reflexivity.
Qed.

(** X15. On a first run, when no row of the ledger names a URL of the batch,
    nothing is asked and every URL of the batch is selected. *)
Theorem first_run_selects_all fuel urls rows listing c :
  urls <> [] ->
  (forall r, r ∈ rows -> Ledger.row_url r ∉ urls) ->
  reconcile fuel urls rows listing c = (Selected urls PNone, c).
Proof.
  intros Hne Hrows.
  assert (E : Ledger.precheck_log_for_urls urls rows = ∅).
  { unfold Ledger.precheck_log_for_urls.
    assert (G : forall m, fold_left (Ledger.log_step urls) rows m = m).
    { induction rows as [|r rest IH]; intros m; simpl; [reflexivity|].
      unfold Ledger.log_step at 2.
      rewrite bool_decide_eq_false_2 by (apply Hrows; left).
      apply IH. intros r' Hr'. apply Hrows. right. exact Hr'. }
    apply G. }
  unfold reconcile, reconcile_with, decide_batch, fully_satisfied, inconsistent.
  rewrite E, map_size_empty.
  destruct urls as [|u urls]; [congruence|].
  cbn [length Nat.eqb andb Nat.ltb Nat.leb].
  rewrite filter_loop_filter. f_equal. f_equal.
  apply filter_all. intros x _. unfold selects_url. rewrite lookup_empty.
  rewrite (bool_decide_eq_false_2 (is_Some None)) by (intros [? ?]; discriminate).
  apply selects_unlogged.
Qed.

(** X16. The question whether to run everything again is put only when every
    URL of the batch has both a ledger entry and a cached file. *)
Theorem rerun_question_only_when_complete fuel urls rows listing c :
  asked (snd (reconcile fuel urls rows listing c)) = (asked c ++ [AskRerunAll])%list ->
  forall u, u ∈ urls -> logged urls rows u = true /\ cached urls listing u = true.
Proof.
  intros Hasked.
  assert (F : fully_satisfied urls (Ledger.precheck_log_for_urls urls rows)
                (AssetIndex.precheck_files_for_urls urls listing) = true).
  { destruct (fully_satisfied urls _ _) eqn:F; [reflexivity|]. exfalso.
    revert Hasked. unfold reconcile, reconcile_with, decide_batch. rewrite F.
    assert (Hn : asked c <> (asked c ++ [AskRerunAll])%list).
    { intros H. apply (f_equal length) in H. rewrite length_app in H. simpl in H. lia. }
    assert (Hb : (asked c ++ [AskBatchPolicy])%list <> (asked c ++ [AskRerunAll])%list).
    { intros H. apply app_inv_head in H. discriminate. }
    destruct (inconsistent urls _ _).
    - unfold input. destruct (answers c) as [|a rest]; [exact Hn|].
      repeat case_match; simplify_eq; cbn [snd asked]; exact Hb.
    - cbn [snd]. exact Hn. }
  unfold fully_satisfied in F. apply andb_true_iff in F as [F1 F2].
  apply Nat.eqb_eq in F1, F2.
  apply all_logged_of_size in F1 as [_ Hl].
  rewrite <- (length_map Resolver.video_id_of urls) in F2.
  apply keys_size in F2 as [_ Hc].
  2:{ intros k Hk. apply precheck_files_keys in Hk as (u & Hu & <-).
      apply list_elem_of_fmap. eauto. }
  intros u Hu. split; apply bool_decide_eq_true.
  - apply Hl. exact Hu.
  - apply Hc. apply list_elem_of_fmap. eauto.
Qed.

Lemma filter_partition_length {A} (f : A -> bool) (l : list A) :
  length l = (length (List.filter f l) + length (List.filter (fun x => negb (f x)) l))%nat.
Proof.
  induction l as [|x l IH]; simpl; [reflexivity|].
  destruct (f x); simpl; lia.
Qed.

Lemma NoDup_map_filter {A B} (g : A -> B) (f : A -> bool) (l : list A) :
  NoDup (map g l) -> NoDup (map g (List.filter f l)).
Proof.
  induction l as [|x l IH]; simpl; [auto|].
  intros H. apply NoDup_cons in H as [Hx Hl].
  destruct (f x); simpl; [|auto].
  apply NoDup_cons. split; [|auto].
  intros Hin. apply Hx. apply list_elem_of_fmap in Hin as (y & -> & Hy).
  apply list_elem_of_fmap. exists y. split; [reflexivity|].
  apply list_elem_of_In in Hy. apply List.filter_In in Hy as [Hy _].
  apply list_elem_of_In. exact Hy.
Qed.

(** The count [videos_to_process] of the summary: the number of ledger
    entries never exceeds the number of URLs, so the clamp at zero never
    acts. *)
Lemma videos_to_process_unclamped urls rows :
  videos_to_process urls (Ledger.precheck_log_for_urls urls rows)
  = Z.of_nat (length urls) - Z.of_nat (size (Ledger.precheck_log_for_urls urls rows)).
Proof.
  pose proof (precheck_log_size urls rows) as Hle. unfold videos_to_process. lia.
Qed.

(** X17. When the identifiers of the batch are pairwise distinct, the count
    [videos_to_process] shown in the summary is the number of URLs of the
    batch that have no ledger entry. *)
Theorem videos_to_process_counts urls rows :
  NoDup (map Resolver.video_id_of urls) ->
  videos_to_process urls (Ledger.precheck_log_for_urls urls rows)
  = Z.of_nat (length (List.filter (fun u => negb (logged urls rows u)) urls)).
Proof.
  intros Hnd. rewrite videos_to_process_unclamped.
  assert (S : size (Ledger.precheck_log_for_urls urls rows)
              = length (List.filter (fun u => logged urls rows u) urls)).
  { rewrite <- (length_map Resolver.video_id_of (List.filter _ urls)).
    apply keys_size_full.
    - apply NoDup_map_filter. exact Hnd.
    - intros k. split.
      + intros Hk. destruct (precheck_log_keys _ _ _ Hk) as (u & Hu & <-).
        apply list_elem_of_fmap. exists u. split; [reflexivity|].
        apply list_elem_of_In, List.filter_In. split; [apply list_elem_of_In; exact Hu|].
        apply bool_decide_eq_true. exact Hk.
      + intros Hk. apply list_elem_of_fmap in Hk as (u & -> & Hu).
        apply list_elem_of_In, List.filter_In in Hu as [_ Hu].
        apply bool_decide_eq_true in Hu. exact Hu. }
  rewrite (filter_partition_length (fun u => logged urls rows u) urls), S. lia.
Qed.

End SelectionFacts.

Lemma reconcile_never_diverges_witness :
  fst (Reconcile.reconcile 3 [Sample.url_a; Sample.url_b]
         [Sample.row_60 Sample.url_a "A"%string; Sample.row_60 Sample.url_b "B"%string]
         [Sample.file_a; Sample.file_b] (Console.Console ["y"%string] []))
  <> Reconcile.Diverges.
Proof.
  apply (reconcile_never_diverges 3 [Sample.url_a; Sample.url_b]). simpl. lia.
Defined.

Lemma selection_by_policy_witness :
  Reconcile.filter_loop Reconcile.PTrue
    (Ledger.precheck_log_for_urls [Sample.url_a; Sample.url_b]
       [Sample.row_60 Sample.url_a "A"%string])
    (AssetIndex.precheck_files_for_urls [Sample.url_a; Sample.url_b] [Sample.file_b])
    [Sample.url_a; Sample.url_b]
  = [Sample.url_a; Sample.url_b].
Proof.
  exact (selection_by_policy 0 [Sample.url_a; Sample.url_b]
           [Sample.row_60 Sample.url_a "A"%string] [Sample.file_b]
           (Console.Console ["y"%string] []) _ Reconcile.PTrue _ eq_refl).
Defined.

Lemma first_run_selects_all_witness :
  Reconcile.reconcile 0 [Sample.url_a; Sample.url_b]
    [Sample.row_60 Sample.long_link "Song"%string] [Sample.file_a]
    (Console.Console [] [])
  = (Reconcile.Selected [Sample.url_a; Sample.url_b] Reconcile.PNone,
     Console.Console [] []).
Proof.
  apply first_run_selects_all; [discriminate|].
  intros r Hr. apply list_elem_of_singleton in Hr as ->.
  intros H. apply list_elem_of_In in H. simpl in H.
  destruct H as [H | [H | []]]; discriminate.
Defined.

Lemma rerun_question_only_when_complete_witness :
  bool_decide (is_Some (Ledger.precheck_log_for_urls [Sample.url_a; Sample.url_b]
      [Sample.row_60 Sample.url_a "A"%string; Sample.row_60 Sample.url_b "B"%string]
      !! Resolver.video_id_of Sample.url_b)) = true /\
  bool_decide (is_Some (AssetIndex.precheck_files_for_urls
      [Sample.url_a; Sample.url_b] [Sample.file_a; Sample.file_b]
      !! Resolver.video_id_of Sample.url_b)) = true.
Proof.
  apply (rerun_question_only_when_complete 3 [Sample.url_a; Sample.url_b]
           [Sample.row_60 Sample.url_a "A"%string; Sample.row_60 Sample.url_b "B"%string]
           [Sample.file_a; Sample.file_b] (Console.Console ["n"%string] [])).
  - vm_compute. reflexivity.
  - right. left.
Defined.

Lemma videos_to_process_counts_witness :
  Reconcile.videos_to_process [Sample.url_a; Sample.url_b]
    (Ledger.precheck_log_for_urls [Sample.url_a; Sample.url_b]
       [Sample.row_60 Sample.url_a "A"%string])
  = 1.
Proof.
  rewrite (videos_to_process_counts [Sample.url_a; Sample.url_b]
             [Sample.row_60 Sample.url_a "A"%string]).
  - vm_compute. reflexivity.
  - vm_compute. repeat constructor; intros H; apply list_elem_of_In in H; simpl in H;
      intuition discriminate.
Defined.

(** ** The decision block and the console *)

Section DecisionConsoleFacts.
Import Console Reconcile.


End DecisionConsoleFacts.

(** ** A batch file without links *)

Section EmptyBatchFacts.
Import Pipeline.

Variable metadata : string -> option (string * string).
Variable fetch : string -> list string -> option string.
Variable download_tiktok download_twitch download_soop
  : string -> list string -> option (string * string) * list string.
Variable read_lines : string -> list string.
Variable playlist_entries channel_entries : string -> list string.
Variable ffmpeg : string -> list Z.
Variable classifier : list Q -> list (list Q).
Variable now : nat -> string.

Lemma startswith_prefix (p q : string) : forall s,
  Str.startswith (p ++ q)%string s = true -> Str.startswith p s = true.
Proof.
  induction p as [|a p IH]; intros s; [reflexivity|].
  change (String a p ++ q)%string with (String a (p ++ q)%string).
  destruct s as [|b s]; cbn [Str.startswith]; [discriminate|].
  intros H. apply andb_true_iff in H as [Hab H]. rewrite Hab. apply IH. exact H.
Qed.

Lemma contains_prefix (p q : string) : forall s,
  Str.contains p s = false -> Str.contains (p ++ q)%string s = false.
Proof.
  induction s as [|b s IH].
  - cbn [Str.contains]. intros H. apply orb_false_elim in H as [H _].
    rewrite orb_false_r in *.
    destruct (Str.startswith (p ++ q)%string EmptyString) eqn:E; [|reflexivity].
    apply startswith_prefix in E. congruence.
  - rewrite !contains_cons. intros H. apply orb_false_elim in H as [H1 H2].
    rewrite (IH H2), orb_false_r.
    destruct (Str.startswith (p ++ q)%string (String b s)) eqn:E; [|reflexivity].
    apply startswith_prefix in E. congruence.
Qed.

Lemma filter_none {A} (f : A -> bool) (l : list A) :
  Forall (fun x => f x = false) l -> List.filter f l = [].
Proof.
  induction 1 as [|x l Hx _ IH]; simpl; [reflexivity|]. rewrite Hx. exact IH.
Qed.

(** X19. A [.txt] file in which no line holds a YouTube link ends the run with
    exit code 1 before anything is done: nothing is asked, downloaded,
    logged or counted. *)
Theorem run_txt_without_links fuel a first rest s :
  Str.endswith ".txt" first = true ->
  Str.contains "tiktok.com" first = false ->
  Forall (fun line => Resolver.is_youtube_line line = false) (read_lines first) ->
  run metadata fetch download_tiktok download_twitch download_soop read_lines
    playlist_entries channel_entries ffmpeg classifier now fuel a (first :: rest) s
  = Some (SysExits 1, s).
Proof.
  intros Htxt Htik Hlines. unfold run. cbn [hd].
  pose proof (contains_prefix "tiktok.com" "/@" first Htik) as Hacc.
  change ("tiktok.com" ++ "/@")%string with "tiktok.com/@"%string in Hacc.
  rewrite Htik, Hacc, Htxt. cbn [andb].
  unfold Resolver.urls_of_txt. rewrite (filter_none _ _ Hlines). reflexivity.
Qed.

End EmptyBatchFacts.

Lemma run_txt_without_links_witness :
  Sample.run_list ["# my list"; "https://example.org/video"]%string
    (Pipeline.initial_state [] [] [])
  = Some (Pipeline.SysExits 1, Pipeline.initial_state [] [] []).
Proof.
  apply (run_txt_without_links Sample.metadata Sample.fetch Sample.download_other
           Sample.download_other Sample.download_other
           (Sample.batch_lines ["# my list"; "https://example.org/video"]%string)
           Sample.no_entries Sample.no_entries Sample.ffmpeg Sample.classifier
           Sample.now 10 Sample.options "list.txt" []).
  - vm_compute. reflexivity.
  - vm_compute. reflexivity.
  - repeat constructor.
Defined.

(** ** Effects of [download_audio] *)

Section AcquisitionFacts.
Import Console Pipeline.

Variable metadata : string -> option (string * string).
Variable fetch : string -> list string -> option string.


(** X21. In a batch, [download_audio] never ends the process: [sys.exit] is
    reached for a single item only. *)
Theorem download_audio_batch_never_exits e url s code :
  processing_batch e = true ->
  fst (download_audio metadata fetch e url s) <> Exit code.
Proof.
  intros Hb.
  unfold download_audio, unlogged_step, after_conflict, logged_step, missing_step,
    do_download.
  repeat case_match; simpl in *; congruence.
Qed.

End AcquisitionFacts.

Lemma download_audio_batch_never_exits_witness :
  let urls := [Sample.url_a] in
  let rows := [Sample.row_60 Sample.url_a "Title A"] in
  let e := Sample.batch_env urls [] rows in
  let s := Pipeline.initial_state [] rows ["n"%string] in
  Pipeline.processing_batch e = true /\
  fst (Pipeline.download_audio Sample.metadata Sample.fetch e Sample.url_a s)
  = Pipeline.NoAsset /\
  fst (Pipeline.download_audio Sample.metadata Sample.fetch e Sample.url_a s)
  <> Pipeline.Exit 1.
Proof.
  intros urls rows e s. split; [reflexivity|]. split; [vm_compute; reflexivity|].
  apply (download_audio_batch_never_exits Sample.metadata Sample.fetch e
           Sample.url_a s 1). reflexivity.
Defined.

(** ** The file handed to the decoder *)

Section AssetOnDisk.
Import Console Pipeline.

Variable metadata : string -> option (string * string).
Variable fetch : string -> list string -> option string.

Lemma scan_single_listed video_id files file :
  AssetIndex.scan_single video_id files = Some file -> file ∈ files.
Proof.
  unfold AssetIndex.scan_single. case_match; [discriminate|].
  intros Hf. apply first_match_Some in Hf. tauto.
Qed.

(** X22. For an item given on the command line (no batch), the file that
    [download_audio] returns is in the working directory when it returns:
    it is the file found there by the scan, or the file just downloaded
    (after the answer N the old file is deleted first). *)
Theorem download_audio_asset_on_disk e url s file title s' :
  processing_batch e = false ->
  download_audio metadata fetch e url s = (Asset file title, s') ->
  file ∈ listing s'.
Proof.
  intros Hpb. unfold download_audio, processed_flags, existing_file_of.
  rewrite Hpb. destruct (metadata url) as [[t vid]|]; [|discriminate].
  destruct (AssetIndex.scan_single vid (listing s)) as [f|] eqn:Sc.
  - apply scan_single_listed in Sc.
    unfold unlogged_step, after_conflict, logged_step, missing_step, do_download,
      input, rerun_selected.
    rewrite Hpb.
    repeat case_match; intros Hret; simplify_eq; simpl in *; simplify_eq;
      first [exact Sc|left].
  - unfold unlogged_step, after_conflict, missing_step, do_download, input.
    repeat case_match; intros Hret; simplify_eq; simpl in *; simplify_eq; left.
Qed.

End AssetOnDisk.

Lemma download_audio_asset_on_disk_witness :
  let fetched := fun (_ : string) (_ : list string) => Some "Title A [aaa].opus"%string in
  let e := Pipeline.Env false None [Sample.url_a] Sample.options in
  let s := Pipeline.initial_state [Sample.file_a] [] ["n"%string] in
  exists s',
    Pipeline.download_audio Sample.metadata fetched e Sample.url_a s
    = (Pipeline.Asset "Title A [aaa].opus" "Title A", s') /\
    "Title A [aaa].opus"%string ∈ Pipeline.listing s'.
Proof.
  intros fetched e s. eexists.
  assert (H : Pipeline.download_audio Sample.metadata fetched e Sample.url_a s
              = (Pipeline.Asset "Title A [aaa].opus" "Title A", _))
    by (vm_compute; reflexivity).
  split; [exact H|].
  exact (download_audio_asset_on_disk Sample.metadata fetched e Sample.url_a s
           _ _ _ eq_refl H).
Defined.

(** ** The ledger and the counters through the run *)

Section LedgerRunFacts.
Import Console Pipeline.

Variable metadata : string -> option (string * string).
Variable fetch : string -> list string -> option string.
Variable download_tiktok download_twitch download_soop
  : string -> list string -> option (string * string) * list string.
Variable ffmpeg : string -> list Z.
Variable classifier : list Q -> list (list Q).
Variable now : nat -> string.

Lemma check_log_snoc youtube_url rows r :
  Ledger.check_log youtube_url (rows ++ [r])
  = if String.eqb (Ledger.row_url r) youtube_url
    then Ledger.mark (Ledger.row_code r) (Ledger.check_log youtube_url rows)
    else Ledger.check_log youtube_url rows.
Proof. unfold Ledger.check_log. rewrite fold_left_app. reflexivity. Qed.

(** X23. Writing and reading the ledger agree: after [log_inference] for a
    URL that is logged (it starts with [http] and is not a TikTok URL) and
    class 60 or 58, [check_log] for this URL reports that class as
    processed and the other class as it reported it before. *)
Theorem log_inference_then_check_log url focus title s :
  Str.startswith "http" url = true ->
  Str.contains "tiktok.com" url = false ->
  focus = 60 \/ focus = 58 ->
  Ledger.check_log url (ledger (log_inference now url focus title s))
  = (fst (Ledger.check_log url (ledger s)) || (focus =? 60),
     snd (Ledger.check_log url (ledger s)) || (focus =? 58)).
Proof.
  intros Hh Ht Hf. unfold log_inference. rewrite Hh, Ht.
  cbn [negb orb ledger set_ledger]. rewrite check_log_snoc.
  cbn [Ledger.row_url Ledger.row_code]. rewrite String.eqb_refl.
  destruct (Ledger.check_log url (ledger s)) as [f b].
  destruct Hf as [-> | ->]; vm_compute; destruct f, b; reflexivity.
Qed.

(** A row that the loop may write for [url]: it names [url], which is a
    web address and not a TikTok one. *)
Local Abbreviation row_for url r :=
  (Ledger.row_url r = url /\ Str.startswith "http" (Ledger.row_url r) = true /\
   Str.contains "tiktok.com" (Ledger.row_url r) = false).

Lemma run_frames_ledger e focus frames : forall offset s,
  ledger (snd (run_frames classifier e focus offset frames s)) = ledger s.
Proof.
  induction frames as [|chunk rest IH]; intros offset s; simpl; [reflexivity|].
  case_match; simpl; [|reflexivity]. rewrite IH. reflexivity.
Qed.

Lemma run_classes_ledger e url title frames classes : forall s,
  exists added,
    ledger (snd (run_classes classifier now e url title frames classes s))
    = ledger s ++ added /\
    Forall (fun r => row_for url r) added.
Proof.
  induction classes as [|focus rest IH]; intros s; simpl.
  - exists []. rewrite app_nil_r. auto.
  - pose proof (run_frames_ledger e focus frames 0%Q s) as Hf.
    destruct (run_frames classifier e focus 0%Q frames s) as [[x|] s1]; simpl in *.
    + exists []. rewrite app_nil_r. auto.
    + destruct (IH (log_inference now url focus title s1)) as (added & -> & Hall).
      unfold log_inference.
      destruct (Str.startswith "http" url) eqn:Hh;
        [destruct (Str.contains "tiktok.com" url) eqn:Ht|]; cbn [negb orb].
      * exists added. rewrite Hf. auto.
      * eexists (_ :: added). cbn [ledger set_ledger].
        rewrite Hf, <- app_assoc. split; [reflexivity|].
        constructor; [|exact Hall]. cbn [Ledger.row_url]. auto.
      * exists added. rewrite Hf. auto.
Qed.

Lemma infer_item_ledger e item url file title s :
  exists added,
    ledger (snd (infer_item ffmpeg classifier now e item url file title s))
    = ledger s ++ added /\
    Forall (fun r => row_for url r) added.
Proof.
  unfold infer_item.
  assert (Hnone : exists added, ledger s = ledger s ++ added /\
                    Forall (fun r => row_for url r) added).
  { exists []. rewrite app_nil_r. auto. }
  destruct file as [f|]; [|exact Hnone].
  destruct (Decoder.load_audio (ffmpeg f)) as [x|audio]; [exact Hnone|].
  destruct (Chunking.submitted_frames audio (batch_size (args e))) as [frames|];
    [|exact Hnone].
  destruct (run_classes_ledger e url title frames (focus_idx_values e) s)
    as (added & Ha & Hall).
  destruct (run_classes classifier now e url title frames (focus_idx_values e) s)
    as [[x|] s1]; simpl in *; eauto.
Qed.

Lemma iteration_ledger e file s :
  exists added,
    ledger (snd (iteration metadata fetch download_tiktok download_twitch
                   download_soop ffmpeg classifier now e file s))
    = ledger s ++ added /\
    Forall (fun r => row_for (Resolver.original_youtube_url file) r) added.
Proof.
  unfold iteration.
  assert (Hnone : exists added, ledger s = ledger s ++ added /\
            Forall (fun r => row_for (Resolver.original_youtube_url file) r) added).
  { exists []. rewrite app_nil_r. auto. }
  assert (Hinf : forall f t s1, ledger s1 = ledger s ->
            exists added,
              ledger (snd (infer_item ffmpeg classifier now e file
                             (Resolver.original_youtube_url file) f t s1))
              = ledger s ++ added /\
              Forall (fun r => row_for (Resolver.original_youtube_url file) r) added).
  { intros f t s1 <-. apply infer_item_ledger. }
  case_match.
  { pose proof (download_audio_keeps metadata fetch e file (begin_item file s)) as Hk.
    cbv zeta in Hk.
    destruct (download_audio metadata fetch e file (begin_item file s)) as [r s1].
    cbn [snd] in Hk. destruct Hk as (_ & Hl & _). simpl in Hl.
    destruct r; cbn [snd]; try (rewrite ?Hl; exact Hnone).
    - apply Hinf. exact Hl.
    - simpl. rewrite Hl. exact Hnone. }
  case_match.
  { destruct (download_tiktok file (listing (begin_item file s))) as [[[f t]|] dir];
      apply Hinf; reflexivity. }
  case_match.
  { destruct (download_twitch file (listing (begin_item file s))) as [[[f t]|] dir];
      apply Hinf; reflexivity. }
  case_match.
  { destruct (download_soop file (listing (begin_item file s))) as [[[f t]|] dir].
    - apply Hinf; reflexivity.
    - exact Hnone. }
  apply Hinf. reflexivity.
Qed.

(** X24. The ledger only grows during the main loop: what it held is kept, in
    order, and every row that is added names the (normalised) URL of an
    item of the loop, a web address that is not a TikTok one: a local file
    or a TikTok video is never logged. *)
Theorem main_loop_ledger_append_only e items : forall s,
  exists added,
    ledger (snd (main_loop metadata fetch download_tiktok download_twitch
                   download_soop ffmpeg classifier now e items s))
    = ledger s ++ added /\
    Forall (fun r => (exists item, item ∈ items /\
                        Ledger.row_url r = Resolver.original_youtube_url item) /\
                     Str.startswith "http" (Ledger.row_url r) = true /\
                     Str.contains "tiktok.com" (Ledger.row_url r) = false)
           added.
Proof.
  induction items as [|file rest IH]; intros s; cbn [main_loop].
  - exists []. rewrite app_nil_r. auto.
  - destruct (iteration_ledger e file s) as (a1 & H1 & A1).
    assert (A1' : Forall (fun r => (exists item, item ∈ file :: rest /\
                    Ledger.row_url r = Resolver.original_youtube_url item) /\
                    Str.startswith "http" (Ledger.row_url r) = true /\
                    Str.contains "tiktok.com" (Ledger.row_url r) = false) a1).
    { eapply Forall_impl; [exact A1|]. intros r (Hr & Hh & Ht).
      split; [|auto]. exists file. split; [left|exact Hr]. }
    destruct (iteration metadata fetch download_tiktok download_twitch download_soop
                ffmpeg classifier now e file s) as [[how|] s1]; cbn [snd] in *.
    + exists a1. auto.
    + destruct (IH s1) as (a2 & H2 & A2). exists (a1 ++ a2).
      rewrite H2, H1, app_assoc. split; [reflexivity|].
      apply Forall_app. split; [exact A1'|].
      eapply Forall_impl; [exact A2|]. intros r ((item & Hi & Hr) & Hh & Ht).
      split; [|auto]. exists item. split; [right; exact Hi|exact Hr].
Qed.

(** ** What is printed *)

Lemma run_frames_printed e focus frames : forall offset s,
  exists lines,
    printed (snd (run_frames classifier e focus offset frames s))
    = printed s ++ lines /\
    Forall (fun d => threshold (args e) <= Events.confidence_percent d) lines.
Proof.
  induction frames as [|chunk rest IH]; intros offset s; cbn [run_frames].
  - exists []. rewrite app_nil_r. auto.
  - destruct (Events.print_timestamps (classifier chunk) (precision (args e))
                (threshold (args e)) focus offset) as [lines|] eqn:E.
    + apply print_timestamps_above in E.
      match goal with
      | |- context [run_frames _ _ _ ?o _ ?t] => destruct (IH o t) as (l2 & -> & H2)
      end.
      exists (lines ++ l2). cbn [printed set_printed]. rewrite app_assoc.
      split; [reflexivity|]. apply Forall_app. auto.
    + exists []. rewrite app_nil_r. auto.
Qed.

Lemma log_inference_printed url focus title s :
  printed (log_inference now url focus title s) = printed s.
Proof. unfold log_inference. case_match; reflexivity. Qed.

Lemma run_classes_printed e url title frames classes : forall s,
  exists lines,
    printed (snd (run_classes classifier now e url title frames classes s))
    = printed s ++ lines /\
    Forall (fun d => threshold (args e) <= Events.confidence_percent d) lines.
Proof.
  induction classes as [|focus rest IH]; intros s; cbn [run_classes].
  - exists []. rewrite app_nil_r. auto.
  - destruct (run_frames_printed e focus frames 0%Q s) as (l1 & H1 & A1).
    destruct (run_frames classifier e focus 0%Q frames s) as [[x|] s1]; cbn [snd] in *.
    + exists l1. auto.
    + destruct (IH (log_inference now url focus title s1)) as (l2 & -> & A2).
      rewrite log_inference_printed, H1. exists (l1 ++ l2). rewrite app_assoc.
      split; [reflexivity|]. apply Forall_app. auto.
Qed.

Lemma infer_item_printed e item url file title s :
  exists lines,
    printed (snd (infer_item ffmpeg classifier now e item url file title s))
    = printed s ++ lines /\
    Forall (fun d => threshold (args e) <= Events.confidence_percent d) lines.
Proof.
  unfold infer_item.
  assert (Hnone : exists lines, printed s = printed s ++ lines /\
            Forall (fun d => threshold (args e) <= Events.confidence_percent d) lines).
  { exists []. rewrite app_nil_r. auto. }
  destruct file as [f|]; [|exact Hnone].
  destruct (Decoder.load_audio (ffmpeg f)) as [x|audio]; [exact Hnone|].
  destruct (Chunking.submitted_frames audio (batch_size (args e))) as [frames|];
    [|exact Hnone].
  destruct (run_classes_printed e url title frames (focus_idx_values e) s)
    as (lines & Ha & Hall).
  destruct (run_classes classifier now e url title frames (focus_idx_values e) s)
    as [[x|] s1]; simpl in *; eauto.
Qed.

Lemma download_audio_printed e url s :
  printed (snd (download_audio metadata fetch e url s)) = printed s.
Proof.
  unfold download_audio, unlogged_step, after_conflict, logged_step, missing_step,
    do_download, input.
  repeat case_match; reflexivity.
Qed.

Lemma iteration_printed e file s :
  exists lines,
    printed (snd (iteration metadata fetch download_tiktok download_twitch
                    download_soop ffmpeg classifier now e file s))
    = printed s ++ lines /\
    Forall (fun d => threshold (args e) <= Events.confidence_percent d) lines.
Proof.
  unfold iteration.
  assert (Hnone : exists lines, printed s = printed s ++ lines /\
            Forall (fun d => threshold (args e) <= Events.confidence_percent d) lines).
  { exists []. rewrite app_nil_r. auto. }
  assert (Hinf : forall u f t s1, printed s1 = printed s ->
            exists lines,
              printed (snd (infer_item ffmpeg classifier now e file u f t s1))
              = printed s ++ lines /\
              Forall (fun d => threshold (args e) <= Events.confidence_percent d) lines).
  { intros u f t s1 <-. apply infer_item_printed. }
  case_match.
  { pose proof (download_audio_printed e file (begin_item file s)) as Hl.
    destruct (download_audio metadata fetch e file (begin_item file s)) as [r s1].
    cbn [snd] in Hl. simpl in Hl.
    destruct r; cbn [snd]; try (rewrite ?Hl; exact Hnone).
    - apply Hinf. exact Hl.
    - simpl. rewrite Hl. exact Hnone. }
  case_match.
  { destruct (download_tiktok file (listing (begin_item file s))) as [[[f t]|] dir];
      apply Hinf; reflexivity. }
  case_match.
  { destruct (download_twitch file (listing (begin_item file s))) as [[[f t]|] dir];
      apply Hinf; reflexivity. }
  case_match.
  { destruct (download_soop file (listing (begin_item file s))) as [[[f t]|] dir].
    - apply Hinf; reflexivity.
    - exact Hnone. }
  apply Hinf. reflexivity.
Qed.

(** X25. Whatever the items and however the loop ends, a detection is printed
    only with a percentage of at least [args.threshold], and nothing that
    was printed is taken back. *)
Theorem main_loop_prints_above_threshold e items : forall s,
  exists lines,
    printed (snd (main_loop metadata fetch download_tiktok download_twitch
                    download_soop ffmpeg classifier now e items s))
    = printed s ++ lines /\
    Forall (fun d => threshold (args e) <= Events.confidence_percent d) lines.
Proof.
  induction items as [|file rest IH]; intros s; cbn [main_loop].
  - exists []. rewrite app_nil_r. auto.
  - destruct (iteration_printed e file s) as (l1 & H1 & A1).
    destruct (iteration metadata fetch download_tiktok download_twitch download_soop
                ffmpeg classifier now e file s) as [[how|] s1]; cbn [snd] in *.
    + exists l1. auto.
    + destruct (IH s1) as (l2 & -> & A2). exists (l1 ++ l2).
      rewrite H1, app_assoc. split; [reflexivity|]. apply Forall_app. auto.
Qed.

(** The counters kept by one iteration that ends normally. *)
Lemma download_audio_counters e url s :
  let s' := snd (download_audio metadata fetch e url s) in
  total_videos s' = total_videos s /\ skipped_videos s' = skipped_videos s /\
  videos_inferenced s' = videos_inferenced s.
Proof.
  unfold download_audio, unlogged_step, after_conflict, logged_step, missing_step,
    do_download, input.
  repeat case_match; simpl; auto.
Qed.

Lemma run_frames_counters e focus frames : forall offset s,
  let s' := snd (run_frames classifier e focus offset frames s) in
  total_videos s' = total_videos s /\ skipped_videos s' = skipped_videos s /\
  videos_inferenced s' = videos_inferenced s /\ started s' = started s.
Proof.
  induction frames as [|chunk rest IH]; intros offset s; simpl; [auto|].
  case_match; simpl; [|auto].
  match goal with
  | |- context [run_frames _ _ _ ?o _ ?t] =>
      pose proof (IH o t) as Hr; cbv zeta in Hr; destruct Hr as (A & B & C & D)
  end.
  simpl in *. auto.
Qed.

Lemma run_classes_counters e url title frames classes : forall s,
  let s' := snd (run_classes classifier now e url title frames classes s) in
  total_videos s' = total_videos s /\ skipped_videos s' = skipped_videos s /\
  videos_inferenced s' = videos_inferenced s /\ started s' = started s.
Proof.
  induction classes as [|focus rest IH]; intros s; simpl; [auto|].
  pose proof (run_frames_counters e focus frames 0%Q s) as Hf. simpl in Hf.
  destruct (run_frames classifier e focus 0%Q frames s) as [[x|] s1]; simpl in *;
    [exact Hf|].
  destruct Hf as (A & B & C & D).
  pose proof (IH (log_inference now url focus title s1)) as Hr. cbv zeta in Hr.
  destruct Hr as (A' & B' & C' & D').
  assert (Hl : total_videos (log_inference now url focus title s1) = total_videos s1 /\
               skipped_videos (log_inference now url focus title s1) = skipped_videos s1 /\
               videos_inferenced (log_inference now url focus title s1)
               = videos_inferenced s1 /\
               started (log_inference now url focus title s1) = started s1).
  { unfold log_inference. case_match; simpl; auto. }
  destruct Hl as (A'' & B'' & C'' & D''). repeat split; congruence.
Qed.

Lemma infer_item_counters e item url file title s s' :
  infer_item ffmpeg classifier now e item url file title s = (None, s') ->
  total_videos s' = total_videos s /\ skipped_videos s' = skipped_videos s /\
  videos_inferenced s' = S (videos_inferenced s) /\ started s' = started s.
Proof.
  unfold infer_item. destruct file as [f|]; [|discriminate].
  destruct (Decoder.load_audio (ffmpeg f)) as [x|audio]; [discriminate|].
  destruct (Chunking.submitted_frames audio (batch_size (args e))) as [frames|];
    [|discriminate].
  pose proof (run_classes_counters e url title frames (focus_idx_values e) s) as H.
  cbv zeta in H.
  destruct (run_classes classifier now e url title frames (focus_idx_values e) s)
    as [[x|] s1]; [discriminate|].
  cbn [snd] in H. destruct H as (A & B & C & D).
  intros [= <-]. simpl. repeat split; congruence.
Qed.

Lemma iteration_counters e file s s' :
  iteration metadata fetch download_tiktok download_twitch download_soop
    ffmpeg classifier now e file s = (None, s') ->
  total_videos s' = S (total_videos s) /\
  started s' = started s ++ [file] /\
  (videos_inferenced s' + skipped_videos s'
   = S (videos_inferenced s + skipped_videos s))%nat.
Proof.
  unfold iteration.
  assert (Hinf : forall u f t s1,
            total_videos s1 = S (total_videos s) ->
            skipped_videos s1 = skipped_videos s ->
            videos_inferenced s1 = videos_inferenced s ->
            started s1 = started s ++ [file] ->
            infer_item ffmpeg classifier now e file u f t s1 = (None, s') ->
            total_videos s' = S (total_videos s) /\
            started s' = started s ++ [file] /\
            (videos_inferenced s' + skipped_videos s'
             = S (videos_inferenced s + skipped_videos s))%nat).
  { intros u f t s1 A B C D H.
    destruct (infer_item_counters _ _ _ _ _ _ _ H) as (A' & B' & C' & D').
    repeat split; [congruence|congruence|lia]. }
  case_match.
  { pose proof (download_audio_counters e file (begin_item file s)) as Hc.
    pose proof (download_audio_keeps metadata fetch e file (begin_item file s)) as Hk.
    cbv zeta in Hc, Hk.
    destruct (download_audio metadata fetch e file (begin_item file s)) as [r s1].
    cbn [snd] in Hc, Hk. destruct Hc as (A & B & C). destruct Hk as (D & _).
    simpl in A, B, C, D.
    destruct r; try discriminate.
    - apply Hinf; assumption.
    - intros [= <-]. simpl. repeat split; [congruence|congruence|lia]. }
  case_match.
  { destruct (download_tiktok file (listing (begin_item file s))) as [[[f t]|] dir];
      apply Hinf; reflexivity. }
  case_match.
  { destruct (download_twitch file (listing (begin_item file s))) as [[[f t]|] dir];
      apply Hinf; reflexivity. }
  case_match.
  { destruct (download_soop file (listing (begin_item file s))) as [[[f t]|] dir].
    - apply Hinf; reflexivity.
    - intros [= <-]. simpl. repeat split; lia. }
  apply Hinf; reflexivity.
Qed.

(** X26. When the main loop reaches its end, every item was begun once, in
    order, [total_videos] has grown by the number of items, and each item
    was counted either as inferenced or as skipped. *)
Theorem main_loop_finished_counts e items : forall s s',
  main_loop metadata fetch download_tiktok download_twitch download_soop
    ffmpeg classifier now e items s = (Finished, s') ->
  total_videos s' = (total_videos s + length items)%nat /\
  started s' = started s ++ items /\
  (videos_inferenced s' + skipped_videos s'
   = videos_inferenced s + skipped_videos s + length items)%nat.
Proof.
  induction items as [|file rest IH]; intros s s'; cbn [main_loop].
  - intros [= <-]. rewrite app_nil_r. simpl. repeat split; lia.
  - destruct (iteration metadata fetch download_tiktok download_twitch download_soop
                ffmpeg classifier now e file s) as [[how|] s1] eqn:Hi.
    + intros [= -> <-].
      exfalso. revert Hi. unfold iteration, infer_item.
      repeat case_match; discriminate.
    + intros Hrest. destruct (iteration_counters _ _ _ _ Hi) as (A & B & C).
      destruct (IH _ _ Hrest) as (A' & B' & C').
      rewrite A', B', B, <- app_assoc. simpl. repeat split; lia.
Qed.

End LedgerRunFacts.

Lemma main_loop_finished_counts_witness :
  let urls := [Sample.url_b; Sample.long_link] in
  let dir := [Sample.file_b; Sample.file_song] in
  let e := Sample.batch_env urls dir [] in
  let s := Pipeline.initial_state dir [] ["A"%string] in
  let r := Pipeline.main_loop Sample.metadata Sample.fetch Sample.download_other
             Sample.download_other Sample.download_other Sample.ffmpeg
             Sample.classifier Sample.now e urls s in
  r = (Pipeline.Finished, snd r) /\
  Pipeline.total_videos (snd r) = (Pipeline.total_videos s + length urls)%nat /\
  Pipeline.started (snd r) = (Pipeline.started s ++ urls)%list /\
  (Pipeline.videos_inferenced (snd r) + Pipeline.skipped_videos (snd r)
   = Pipeline.videos_inferenced s + Pipeline.skipped_videos s + length urls)%nat.
Proof.
  intros urls dir e s r.
  assert (H : r = (Pipeline.Finished, snd r)) by (vm_compute; reflexivity).
  split; [exact H|].
  exact (main_loop_finished_counts Sample.metadata Sample.fetch Sample.download_other
           Sample.download_other Sample.download_other Sample.ffmpeg
           Sample.classifier Sample.now e urls s (snd r) H).
Defined.

Lemma log_inference_then_check_log_witness :
  Ledger.check_log Sample.url_a
    (Pipeline.ledger
       (Pipeline.log_inference Sample.now Sample.url_a 58 "A"%string
          (Pipeline.initial_state [] [Sample.row_60 Sample.url_a "A"%string] [])))
  = (true, true).
Proof.
  rewrite (log_inference_then_check_log Sample.now Sample.url_a 58 "A"%string
             (Pipeline.initial_state [] [Sample.row_60 Sample.url_a "A"%string] []));
    [reflexivity|reflexivity|reflexivity|right; reflexivity].
Defined.
